(** * gtkcord3 image cache ([gtkcord/cache/cache.go])

    A shallow embedding of the disk-backed image cache: the size
    negotiation ([MaxSize]), the cache-key derivation ([TransformURL],
    [SanitizeString]), the start-up sweep ([cleanUpCache]) and the
    fetch / persist / decode pipeline ([download], [get],
    [SetImageScaledContext], [GetPixbufScaled]).

    Go strings are byte sequences: they are modelled as [string] (one
    [ascii] per byte).  Go's [int] is modelled as a 64-bit two's
    complement integer carried in [Z], with the wrap-around written out.
    Everything the package calls but does not define (the HTTP client,
    the semaphore, gdk's pixbuf loader, [net/url], [path/filepath], the
    Unicode tables, the processors) is a field of the record [Env]. *)

From Stdlib Require Import ZArith Lia Bool List Ascii String.
From stdpp Require Import base option list strings gmap.

Local Open Scope string_scope.
Local Open Scope Z_scope.

(** ** Go's [int] *)

Module GoInt.

(** [int] on the 64-bit platforms the client runs on. *)
Definition intSize : Z := 64.
Definition MinInt : Z := - 2 ^ (intSize - 1).
Definition MaxInt : Z := 2 ^ (intSize - 1) - 1.

Definition in_range (z : Z) : Prop := MinInt <= z <= MaxInt.

(** Two's complement wrap-around of a mathematical result. *)
Definition wrap (z : Z) : Z :=
  (z + 2 ^ (intSize - 1)) mod 2 ^ intSize - 2 ^ (intSize - 1).

(** [a * b] on [int]: silent wrap-around. *)
Definition mul (a b : Z) : Z := wrap (a * b).

(** [a / b] on [int]: truncation toward zero, run-time panic on a zero
    divisor ([None]). *)
Definition div (a b : Z) : option Z :=
  if b =? 0 then None else Some (wrap (Z.quot a b)).

End GoInt.

(** ** Size negotiation *)

(** [MaxSize] (cache.go, 275-289).  [None] is the division-by-zero panic. *)
Definition MaxSize (w h maxW maxH : Z) : option (Z * Z) :=
  if (w <? maxW) && (h <? maxH) then Some (w, h)
  else if w >? h then
    match GoInt.div (GoInt.mul h maxW) w with
    | Some h' => Some (maxW, h')
    | None => None
    end
  else
    match GoInt.div (GoInt.mul w maxH) h with
    | Some w' => Some (w', maxH)
    | None => None
    end.

(** What the specification says of [MaxSize], in its own words: inside the
    bound the input comes back; otherwise the longer side is set to its
    bound and the other one is the exact proportional value, truncated. *)
Definition MaxSize_spec (w h maxW maxH : Z) (out : option (Z * Z)) : Prop :=
  (w < maxW /\ h < maxH -> out = Some (w, h)) /\
  (~ (w < maxW /\ h < maxH) -> w > h ->
     out = Some (maxW, h * maxW / w)) /\
  (~ (w < maxW /\ h < maxH) -> w <= h ->
     out = Some (w * maxH / h, maxH)).

(** Aspect ratio kept up to truncation, and the larger output side is the
    one that was set to its bound. *)
Definition MaxSize_scaled (w h maxW maxH : Z) (out : option (Z * Z)) : Prop :=
  ~ (w < maxW /\ h < maxH) ->
  exists ow oh, out = Some (ow, oh) /\
    if w >? h
    then ow = maxW /\ oh <= ow /\ oh * w <= h * ow < (oh + 1) * w
    else oh = maxH /\ ow <= oh /\ ow * h <= w * oh < (ow + 1) * h.

(** The product [MaxSize] forms outside the bound. *)
Definition MaxSize_product (w h maxW maxH : Z) : Z :=
  if w >? h then h * maxW else w * maxH.

(** ** Strings (package [strings]) *)

(** [strings.HasPrefix]. *)
Fixpoint HasPrefix (s prefix : string) {struct prefix} : bool :=
  match prefix, s with
  | EmptyString, _ => true
  | String _ _, EmptyString => false
  | String p prefix', String c s' => Ascii.eqb c p && HasPrefix s' prefix'
  end.

(** [strings.Contains]. *)
Fixpoint Contains (s substr : string) : bool :=
  HasPrefix s substr ||
  match s with
  | EmptyString => false
  | String _ s' => Contains s' substr
  end.

(** [strings.Replace s old new (-1)] for a non-empty [old] (the only call
    passes ["gif"]): the non-overlapping occurrences of [old] are replaced
    from left to right.  [skip] counts the bytes of a matched occurrence
    that are still to be dropped. *)
Fixpoint replace_from (skip : nat) (s old new : string) : string :=
  match s with
  | EmptyString => EmptyString
  | String c s' =>
    match skip with
    | S k => replace_from k s' old new
    | O =>
      if HasPrefix s old
      then new ++ replace_from (String.length old - 1) s' old new
      else String c (replace_from O s' old new)
    end
  end.

Definition Replace (s old new : string) : string := replace_from O s old new.

(** ** UTF-8 (package [unicode/utf8]) *)

Module utf8.

Definition RuneError : Z := 65533.    (* U+FFFD *)
Definition MaxRune : Z := 1114111.    (* U+10FFFF *)
Definition surrogateMin : Z := 55296. (* U+D800 *)
Definition surrogateMax : Z := 57343. (* U+DFFF *)

Definition tx : Z := 128.
Definition t2 : Z := 192.
Definition t3 : Z := 224.
Definition t4 : Z := 240.
Definition maskx : Z := 63.
Definition mask2 : Z := 31.
Definition mask3 : Z := 15.
Definition mask4 : Z := 7.
Definition rune1Max : Z := 127.
Definition rune2Max : Z := 2047.
Definition rune3Max : Z := 65535.
Definition locb : Z := 128.
Definition hicb : Z := 191.

(** The value of a byte of a string, and the conversion [byte(x)]. *)
Definition val (c : ascii) : Z := Z.of_N (N_of_ascii c).
Definition chr (z : Z) : ascii := ascii_of_N (Z.to_N (z mod 256)).

(** [s[i]]; the decoder only indexes below the length it has checked. *)
Definition at_ (s : string) (i : nat) : Z :=
  match String.get i s with
  | Some c => val c
  | None => 0
  end.

(** The table [first]: what the first byte of a sequence announces. *)
Inductive lead : Type :=
| AS                          (* ASCII, size 1 *)
| XX                          (* invalid, size 1 *)
| SEQ (sz : nat) (lo hi : Z). (* size and accepted range of byte two *)

Definition first (s0 : Z) : lead :=
  if s0 <? 128 then AS
  else if s0 <? 194 then XX
  else if s0 <? 224 then SEQ 2 locb hicb
  else if s0 =? 224 then SEQ 3 160 hicb
  else if s0 <? 237 then SEQ 3 locb hicb
  else if s0 =? 237 then SEQ 3 locb 159
  else if s0 <? 240 then SEQ 3 locb hicb
  else if s0 =? 240 then SEQ 4 144 hicb
  else if s0 <? 244 then SEQ 4 locb hicb
  else if s0 =? 244 then SEQ 4 locb 143
  else XX.

(** [utf8.DecodeRuneInString]: the rune at the head of [s] and its width;
    an invalid or short sequence is [(RuneError, 1)]. *)
Definition DecodeRuneInString (s : string) : Z * nat :=
  let n := String.length s in
  if (n <? 1)%nat then (RuneError, 0%nat)
  else
    let s0 := at_ s 0 in
    match first s0 with
    | AS => (s0, 1%nat)
    | XX => (RuneError, 1%nat)
    | SEQ sz lo hi =>
      if (n <? sz)%nat then (RuneError, 1%nat)
      else
        let s1 := at_ s 1 in
        if (s1 <? lo) || (hi <? s1) then (RuneError, 1%nat)
        else if (sz <=? 2)%nat then
          (Z.lor (Z.shiftl (Z.land s0 mask2) 6) (Z.land s1 maskx), 2%nat)
        else
          let s2 := at_ s 2 in
          if (s2 <? locb) || (hicb <? s2) then (RuneError, 1%nat)
          else if (sz <=? 3)%nat then
            (Z.lor (Z.lor (Z.shiftl (Z.land s0 mask3) 12)
                          (Z.shiftl (Z.land s1 maskx) 6))
                   (Z.land s2 maskx), 3%nat)
          else
            let s3 := at_ s 3 in
            if (s3 <? locb) || (hicb <? s3) then (RuneError, 1%nat)
            else
              (Z.lor (Z.lor (Z.lor (Z.shiftl (Z.land s0 mask4) 18)
                                   (Z.shiftl (Z.land s1 maskx) 12))
                            (Z.shiftl (Z.land s2 maskx) 6))
                     (Z.land s3 maskx), 4%nat)
    end.

Definition encode3 (r : Z) : string :=
  String (chr (Z.lor t3 (Z.shiftr r 12)))
 (String (chr (Z.lor tx (Z.land (Z.shiftr r 6 mod 256) maskx)))
 (String (chr (Z.lor tx (Z.land (r mod 256) maskx))) EmptyString)).

Definition encode4 (r : Z) : string :=
  String (chr (Z.lor t4 (Z.shiftr r 18)))
 (String (chr (Z.lor tx (Z.land (Z.shiftr r 12 mod 256) maskx)))
 (String (chr (Z.lor tx (Z.land (Z.shiftr r 6 mod 256) maskx)))
 (String (chr (Z.lor tx (Z.land (r mod 256) maskx))) EmptyString))).

(** [utf8.AppendRune nil r]: the bytes written for [r]; a rune that is
    out of range or a surrogate is written as [RuneError]. *)
Definition EncodeRune (r : Z) : string :=
  if (0 <=? r) && (r <=? rune1Max) then String (chr r) EmptyString
  else if (0 <=? r) && (r <=? rune2Max) then
    String (chr (Z.lor t2 (Z.shiftr r 6)))
   (String (chr (Z.lor tx (Z.land (r mod 256) maskx))) EmptyString)
  else if (r <? 0) || (MaxRune <? r)
          || ((surrogateMin <=? r) && (r <=? surrogateMax))
  then encode3 RuneError
  else if r <=? rune3Max then encode3 r
  else encode4 r.

(** The runes a [for _, c := range s] loop sees.  [skip] counts the
    remaining bytes of the sequence decoded last. *)
Fixpoint runes_from (skip : nat) (s : string) : list Z :=
  match s with
  | EmptyString => []
  | String _ s' =>
    match skip with
    | S k => runes_from k s'
    | O => let (r, size) := DecodeRuneInString s in
           r :: runes_from (size - 1) s'
    end
  end.

Definition runes (s : string) : list Z := runes_from O s.

(** [utf8.RuneCountInString]. *)
Definition RuneCountInString (s : string) : nat := List.length (runes s).

End utf8.

(** [strings.Map]: every rune of [s] is replaced by its image, a negative
    image dropping the rune, and the result is encoded again. *)
Definition strings_Map (mapping : Z -> Z) (s : string) : string :=
  fold_right
    (fun c acc => let r := mapping c in
                  if r <? 0 then acc else utf8.EncodeRune r ++ acc)
    EmptyString (utf8.runes s).

(** A Unicode scalar value: what a decoded rune always is. *)
Definition scalar (r : Z) : Prop :=
  0 <= r <= utf8.MaxRune /\ ~ (utf8.surrogateMin <= r <= utf8.surrogateMax).

(** ** The environment of the package *)

(** [*url.URL], as far as the package looks at it. *)
Record URL := {
  Hostname : string;
  EscapedPath : string;
  RawQuery : string;
}.

Inductive error : Type :=
| ErrContext                       (* ctx.Err() *)
| ErrParse                         (* net/url: the URL does not parse *)
| ErrTransport                     (* net/http: the round trip failed *)
| ErrBadStatus (code : Z) (url : option string)
| ErrProcessing                    (* a Processor failed *)
| ErrRead                          (* the stream broke while being read *)
| ErrOpen                          (* os: no such file *)
| ErrWrite                         (* os: the file could not be written *)
| ErrLoaderNew                     (* gdk: no loader *)
| ErrLoaderWrite                   (* gdk: the loader refused the bytes *)
| ErrLoaderClose                   (* gdk: the image is incomplete *)
| ErrNoPixbuf                      (* gdk: the loader holds no pixbuf *)
| Wrap (e : error) (msg : string). (* errors.Wrap *)

Inductive result (A : Type) : Type :=
| Ok (a : A)
| Err (e : error).
Arguments Ok {A} a.
Arguments Err {A} e.

(** A byte stream: it delivers [data] and then ends, or breaks. *)
Inductive Reader : Type :=
| Complete (data : string)
| Broken (data : string).

Definition data_of (r : Reader) : string :=
  match r with Complete d | Broken d => d end.

Record Response := {
  StatusCode : Z;
  Body : Reader;
}.

(** What [semaphore.Weighted.Acquire] does with the caller. *)
Inductive AcquireOutcome : Type :=
| Acquired    (* a permit is handed over *)
| Refused     (* the context is done first: ctx.Err() *)
| Waits.      (* no permit and a context that is never done *)

(** What [ioutil.WriteFile] leaves behind. *)
Inductive WriteOutcome : Type :=
| Written                      (* the file holds exactly the bytes *)
| NotOpened                    (* the file could not be created *)
| Flushed (partial : string).  (* the write broke after [partial] *)

Record Env := {
  (* types of the collaborators *)
  Ctx : Type;                                 (* context.Context *)
  Background : Ctx;                       (* context.Background() *)
  Processor : Type;
  Pixbuf : Type;
  (* os, path/filepath, net/url, unicode *)
  Temp : string;                              (* os.TempDir() *)
  Join : string -> string -> string;          (* filepath.Join *)
  url_Parse : string -> option URL;           (* url.Parse *)
  IsLetter : Z -> bool;                       (* unicode.IsLetter *)
  IsDigit : Z -> bool;                        (* unicode.IsDigit *)
  os_WriteFile : string -> string -> WriteOutcome;
  (* golang.org/x/sync/semaphore, given the permits in use *)
  sema_Acquire : Ctx -> Z -> AcquireOutcome;
  (* net/http *)
  Client_Do : Ctx -> string -> result Response;
  (* the processors of this package *)
  ProcessStream : Reader -> list Processor -> result string;
  ProcessAnimationStream : Reader -> list Processor -> result string;
  (* gdk.PixbufLoader, given the bytes and the size set in size-prepared *)
  PixbufLoaderNew : bool;
  size_prepared : string -> option (Z * Z);   (* the native size announced *)
  area_prepared : string -> option (Z * Z) -> bool;
  Loader_Write : string -> option (Z * Z) -> bool;
  Loader_Close : string -> option (Z * Z) -> bool;
  Loader_GetPixbuf : string -> option (Z * Z) -> option Pixbuf;
}.

(** ** Constants: DO NOT TOUCH *)

Definition CacheHash : string := "hackadoll3".
Definition CachePrefix : string := "gtkcord3".
Definition DirName : string := CachePrefix ++ "-" ++ CacheHash.

(** ** The world the package acts on *)

(** The files of the cache by path, and the permits of the throttler that
    are in use. *)
Record World := {
  files : gmap string string;
  held : Z;
}.

Inductive Event : Type :=
| EvMkdirAll (path : string)
| EvOpen (path : string)
| EvWriteFile (path data : string)
| EvRemove (path : string)
| EvAcquire
| EvRelease
| EvGET (url : string)
| EvCloseBody
| EvProcess (animated : bool)
| EvShow (animated : bool)      (* SetFromPixbuf / SetFromAnimation *)
| EvPlaceholder
| EvLogError (e : error).

(** How a call ends: it returns, it waits for ever, or it panics. *)
Inductive Outcome (A : Type) : Type :=
| Returns (a : A)
| Blocks
| Panics.
Arguments Returns {A} a.
Arguments Blocks {A}.
Arguments Panics {A}.

Record Run (A : Type) := mkRun {
  outcome : Outcome A;
  world : World;
  events : list Event;
}.
Arguments mkRun {A} _ _ _.
Arguments outcome {A} _.
Arguments world {A} _.
Arguments events {A} _.

Definition M (A : Type) : Type := World -> Run A.

Definition ret {A} (a : A) : M A := fun w => mkRun (Returns a) w [].

Definition bind {A B} (m : M A) (f : A -> M B) : M B := fun w =>
  let r := m w in
  match outcome r with
  | Returns a =>
    let r' := f a (world r) in
    mkRun (outcome r') (world r') (events r ++ events r')
  | Blocks => mkRun Blocks (world r) (events r)
  | Panics => mkRun Panics (world r) (events r)
  end.

(** [defer cleanup] placed before [body]: [cleanup] runs when [body]
    returns or panics, and the result of [body] stands. *)
Definition defer {A} (cleanup : M unit) (body : M A) : M A := fun w =>
  let r := body w in
  match outcome r with
  | Blocks => r
  | _ =>
    let r' := cleanup (world r) in
    mkRun (outcome r) (world r') (events r ++ events r')
  end.

Definition emit (e : Event) : M unit := fun w => mkRun (Returns tt) w [e].

Definition panic {A} : M A := fun w => mkRun Panics w [].

Declare Scope go_scope.
Delimit Scope go_scope with go.
Notation "'let*' x := m 'in' k" := (bind m (fun x => k))
  (at level 10, x name, m at level 100, k at level 200) : go_scope.
Notation "m ;; k" := (bind m (fun _ => k))
  (at level 100, k at level 200, right associativity) : go_scope.
Local Open Scope go_scope.

(** ** The package *)

Section Cache.

Variable E : Env.

Definition Path : string := Join E (Temp E) DirName.

(** *** Primitive effects *)

(** [throttler.Acquire(ctx, 1)]. *)
Definition Acquire (ctx : Ctx E) : M (option error) := fun w =>
  match sema_Acquire E ctx (held w) with
  | Acquired =>
    mkRun (Returns None) {| files := files w; held := held w + 1 |}
          [EvAcquire]
  | Refused => mkRun (Returns (Some ErrContext)) w []
  | Waits => mkRun Blocks w []
  end.

(** [throttler.Release(1)]. *)
Definition Release : M unit := fun w =>
  mkRun (Returns tt) {| files := files w; held := held w - 1 |} [EvRelease].

(** [os.Open]: the bytes of the file at [path]. *)
Definition Open (path : string) : M (result string) := fun w =>
  match files w !! path with
  | Some b => mkRun (Returns (Ok b)) w [EvOpen path]
  | None => mkRun (Returns (Err ErrOpen)) w [EvOpen path]
  end.

(** [ioutil.WriteFile(dst, b, 0644)]. *)
Definition WriteFile (dst b : string) : M (option error) := fun w =>
  match os_WriteFile E dst b with
  | Written =>
    mkRun (Returns None) {| files := <[dst := b]> (files w); held := held w |}
          [EvWriteFile dst b]
  | NotOpened => mkRun (Returns (Some ErrWrite)) w [EvWriteFile dst b]
  | Flushed partial =>
    mkRun (Returns (Some ErrWrite))
          {| files := <[dst := partial]> (files w); held := held w |}
          [EvWriteFile dst b]
  end.

(** [os.Remove(dst)]. *)
Definition Remove (dst : string) : M unit := fun w =>
  mkRun (Returns tt) {| files := delete dst (files w); held := held w |}
        [EvRemove dst].

(** [http.NewRequestWithContext(ctx, "GET", url, nil)] fails when the
    URL does not parse. *)
Definition NewRequestWithContext (url : string) : option error :=
  match url_Parse E url with
  | Some _ => None
  | None => Some ErrParse
  end.

(** [Client.Do(q)]. *)
Definition Do (ctx : Ctx E) (url : string) : M (result Response) :=
  emit (EvGET url) ;; ret (Client_Do E ctx url).

(** [ioutil.ReadAll]. *)
Definition ReadAll (r : Reader) : result string :=
  match r with
  | Complete d => Ok d
  | Broken _ => Err ErrRead
  end.

(** *** The cache key *)

(** [SanitizeString] (cache.go, 92-100). *)
Definition sanitize_rune (r : Z) : Z :=
  if IsLetter E r || IsDigit E r
     || (r =? utf8.val "#") || (r =? utf8.val ".")
  then r else utf8.val "_".

Definition SanitizeString (str : string) : string :=
  strings_Map sanitize_rune str.

(** A character the cache allows in a file name. *)
Definition sanitized (r : Z) : Prop :=
  IsLetter E r = true \/ IsDigit E r = true \/
  r = utf8.val "#" \/ r = utf8.val "." \/ r = utf8.val "_".

(** [TransformURL] (cache.go, 73-88).  A failing [os.MkdirAll] is only
    logged. *)
Definition TransformURL (s : string) : M string :=
  let sizeSuffix := EmptyString in
  match url_Parse E s with
  | None => ret (Join E Path (SanitizeString s ++ sizeSuffix))
  | Some u =>
    let path := Join E Path (Hostname u) in
    emit (EvMkdirAll path) ;;
    ret (Join E path
           (SanitizeString (EscapedPath u ++ "?" ++ RawQuery u)
            ++ sizeSuffix))
  end.

(** *** Fetching *)

(** [download] (cache.go, 104-142). *)
Definition download (ctx : Ctx E) (url : string)
           (pp : list (Processor E)) (gif : bool) : M (result string) :=
  let* err := Acquire ctx in
  match err with
  | Some err => ret (Err (Wrap err "Failed to acquire throttler"))
  | None =>
    defer Release
      match NewRequestWithContext url with
      | Some err => ret (Err (Wrap err "Failed to create a new re"))
      | None =>
        let* r := Do ctx url in
        match r with
        | Err err => ret (Err (Wrap err "Failed to GET"))
        | Ok r =>
          defer (emit EvCloseBody)
            (if (StatusCode r <? 200) || (StatusCode r >? 299)
             then ret (Err (ErrBadStatus (StatusCode r) (Some url)))
             else if (0 <? length pp)%nat then
               emit (EvProcess gif) ;;
               if gif
               then ret (ProcessAnimationStream E (Body r) pp)
               else ret (ProcessStream E (Body r) pp)
             else
               match ReadAll (Body r) with
               | Ok b => ret (Ok b)
               | Err err => ret (Err (Wrap err "Failed to download image"))
               end)
        end
      end
  end.

(** [get] (cache.go, 145-156): it does not check whether the file
    exists. *)
Definition get (ctx : Ctx E) (url dst : string)
           (pp : list (Processor E)) (gif : bool) : M (option error) :=
  let* r := download ctx url pp gif in
  match r with
  | Err err => ret (Some err)
  | Ok b =>
    let* err := WriteFile dst b in
    match err with
    | Some err => ret (Some (Wrap err ("Failed to write file to " ++ dst)))
    | None => ret None
    end
  end.

(** *** Decoding *)

(** The handler of "size-prepared", connected when a bounding box is
    given: the size handed to [l.SetSize], if any.  The native size is
    the one the loader announces for these bytes. *)
Definition negotiate (w h : Z) (b : string) : M (option (Z * Z)) :=
  if (w >? 0) && (h >? 0) then
    match size_prepared E b with
    | None => ret None
    | Some (imgW, imgH) =>
      match MaxSize imgW imgH w h with
      | None => panic
      | Some (w', h') =>
        if negb (w' =? imgW) || negb (h' =? imgH)
        then ret (Some (w', h'))
        else ret None
      end
    end
  else ret None.

(** [io.Copy(l, r)]: the loader takes the bytes, then the reader ends. *)
Definition Copy (r : Reader) (size : option (Z * Z)) : option error :=
  if Loader_Write E (data_of r) size then
    match r with
    | Complete _ => None
    | Broken _ => Some ErrRead
    end
  else Some ErrLoaderWrite.

(** [setImageStream] (cache.go, 338-407).  The widget is left out: what
    its handlers put on it is the event [EvShow], once for the calls of
    SetFromPixbuf or SetFromAnimation made for a loader that has
    prepared an image. *)
Definition setImageStream (r : Reader) (gif : bool) (w h : Z)
           (stream : bool) : M (option error) :=
  if negb (PixbufLoaderNew E)
  then ret (Some (Wrap ErrLoaderNew "Failed to create a pixbuf_loader"))
  else
    let* size := negotiate w h (data_of r) in
    defer (if area_prepared E (data_of r) size
           then emit (EvShow gif) else ret tt)
      match Copy r size with
      | Some err => ret (Some (Wrap err "Failed to stream to pixbuf_loader"))
      | None => ret None
      end.

(** [setImageFromFile] (cache.go, 328-336). *)
Definition setImageFromFile (path : string) (gif : bool) (w h : Z)
  : M (option error) :=
  let* f := Open path in
  match f with
  | Err err => ret (Some (Wrap err "Failed to open file"))
  | Ok b => setImageStream (Complete b) gif w h false
  end.

(** [getPixbufFromFile] (cache.go, 291-326). *)
Definition getPixbufFromFile (path : string) (w h : Z)
  : M (result (Pixbuf E)) :=
  let* f := Open path in
  match f with
  | Err err => ret (Err (Wrap err "Failed to open file"))
  | Ok b =>
    if negb (PixbufLoaderNew E)
    then ret (Err (Wrap ErrLoaderNew "Failed to create a pixbuf_loader"))
    else
      let* size := negotiate w h b in
      match Copy (Complete b) size with
      | Some err => ret (Err (Wrap err "Failed to stream to pixbuf_loader"))
      | None =>
        if negb (Loader_Close E b size)
        then ret (Err (Wrap ErrLoaderClose "Failed to close pixbuf_loader"))
        else
          match Loader_GetPixbuf E b size with
          | None => ret (Err (Wrap ErrNoPixbuf "Failed to get pixbuf"))
          | Some p => ret (Ok p)
          end
      end
  end.

(** *** Binding *)

(** [GetPixbufScaled] (cache.go, 162-183). *)
Definition GetPixbufScaled (url : string) (w h : Z)
           (pp : list (Processor E)) : M (result (Pixbuf E)) :=
  let* dst := TransformURL url in
  let* p := getPixbufFromFile dst w h in
  match p with
  | Ok p => ret (Ok p)
  | Err _ =>
    let* err := get (Background E) url dst pp false in
    match err with
    | Some err => ret (Err err)
    | None =>
      let* p := getPixbufFromFile dst w h in
      match p with
      | Err err => ret (Err err)
      | Ok p => ret (Ok p)
      end
    end
  end.

Definition GetPixbuf (url : string) (pp : list (Processor E))
  : M (result (Pixbuf E)) :=
  GetPixbufScaled url 0 0 pp.

(** [SetImageScaledContext] (cache.go, 193-223). *)
Definition SetImageScaledContext (ctx : Ctx E) (url : string)
           (w h : Z) (pp : list (Processor E)) : M (option error) :=
  let gif := Contains url "gif" in
  (* I don't like animated gifs *)
  let '(url, gif) :=
    if gif then (Replace url "gif" "png", false) else (url, gif) in
  let* dst := TransformURL url in
  (* Try and set the Pixbuf from file: *)
  let* err := setImageFromFile dst gif w h in
  match err with
  | None => ret None
  | Some _ =>
    (* Get the image into file (dst) *)
    let* err := get ctx url dst pp gif in
    match err with
    | Some err => ret (Some err)
    | None =>
      (* Try again: *)
      let* err := setImageFromFile dst gif w h in
      match err with
      | Some err =>
        Remove dst ;;
        ret (Some (Wrap err "Failed to get pixbuf after downloading"))
      | None => ret None
      end
    end
  end.

Definition SetImageScaled (url : string) (w h : Z)
           (pp : list (Processor E)) : M (option error) :=
  SetImageScaledContext (Background E) url w h pp.

Definition SetImage (url : string) (pp : list (Processor E))
  : M (option error) :=
  SetImageScaled url 0 0 pp.

(** [SetImageAsync] (cache.go, 226-246) is not cached. *)
Definition SetImageAsync (url : string) (w h : Z) : M (option error) :=
  let* err := Acquire (Background E) in
  match err with
  | Some err => ret (Some (Wrap err "Failed to acquire throttler"))
  | None =>
    defer Release
      match NewRequestWithContext url with
      | Some err => ret (Some (Wrap err ("Failed to GET " ++ url)))
      | None =>
        let* r := Do (Background E) url in
        match r with
        | Err err => ret (Some (Wrap err ("Failed to GET " ++ url)))
        | Ok r =>
          defer (emit EvCloseBody)
            (if (StatusCode r <? 200) || (StatusCode r >? 299)
             then ret (Some (ErrBadStatus (StatusCode r) None))
             else
               let gif := Contains url ".gif" in
               setImageStream (Body r) gif w h true)
        end
      end
  end.

(** [fetchImage] (cache.go, 258-269). *)
Definition fetchImage (url : string) (w h : Z) (pp : list (Processor E))
  : M unit :=
  let* err :=
    if (length pp =? 0)%nat
    then SetImageAsync url w h
    else SetImageScaled url w h pp in
  match err with
  | Some err => emit (EvLogError err)
  | None => ret tt
  end.

(** [AsyncFetch] (cache.go, 248-251). *)
Definition AsyncFetch (url : string) (w h : Z) (pp : list (Processor E))
  : M unit :=
  emit EvPlaceholder ;; fetchImage url w h pp.

End Cache.

(** ** The start-up sweep *)

(** An entry of the temp root: a file, or a directory with its entries. *)
#[warnings="-register-all"]
Inductive Node : Type :=
| File (data : string)
| Dir (children : list (string * Node)).

(** The temp root [Temp]: whether it can be opened and listed, and its
    entries by name. *)
Record TempRoot := {
  listable : bool;
  entries : gmap string Node;
}.

(** [os.Open(Temp)] followed by [tmp.Readdirnames(-1)]. *)
Definition Readdirnames (t : TempRoot) : option (list string) :=
  if listable t then Some (map fst (map_to_list (entries t))) else None.

(** [os.RemoveAll(filepath.Join(Temp, d))]: the entry [d] goes, with all
    it contains. *)
Definition RemoveAll (d : string) (t : TempRoot) : TempRoot :=
  {| listable := listable t; entries := delete d (entries t) |}.

(** [cleanUpCache] (cache.go, 53-71). *)
Definition cleanUpCache (t : TempRoot) : TempRoot :=
  match Readdirnames t with
  | None => t
  | Some dirs =>
    foldl (fun t d =>
             if HasPrefix d (CachePrefix ++ "-") && negb (String.eqb d DirName)
             then RemoveAll d t
             else t)
          t dirs
  end.

(** ** A small concrete environment

    One server, one cache, an image format whose files start with "img".
    It is used to run the package on concrete requests. *)

Module Demo.

(** The text up to the first [c], and what follows it. *)
Fixpoint cut (c : ascii) (s : string) : string * option string :=
  match s with
  | EmptyString => (EmptyString, None)
  | String a s' =>
    if Ascii.eqb a c then (EmptyString, Some s')
    else let '(l, r) := cut c s' in (String a l, r)
  end.

(** [url.Parse] on URLs of the shape http://host/path?query. *)
Definition parse (s : string) : option URL :=
  if HasPrefix s "http://" then
    let rest := String.substring 7 (String.length s - 7) s in
    let '(host, path) := cut "/" rest in
    let '(path, query) := cut "?" (match path with
                                   | Some p => String "/" p
                                   | None => EmptyString
                                   end) in
    Some {| Hostname := host;
            EscapedPath := path;
            RawQuery := match query with Some q => q | None => EmptyString end |}
  else None.

Definition letter (r : Z) : bool :=
  ((97 <=? r) && (r <=? 122)) || ((65 <=? r) && (r <=? 90)).
Definition digit (r : Z) : bool := (48 <=? r) && (r <=? 57).

(** The server: one image, one page that is not an image, and 404. *)
Definition serve (url : string) : result Response :=
  if String.eqb url "http://img.example/a.png"
  then Ok {| StatusCode := 200; Body := Complete "img:a" |}
  else if String.eqb url "http://img.example/page.png"
  then Ok {| StatusCode := 200; Body := Complete "<html>" |}
  else if String.eqb url "http://down.example/a.png"
  then Err ErrTransport
  else Ok {| StatusCode := 404; Body := Complete "not found" |}.

Definition is_image (b : string) : bool := HasPrefix b "img".

Definition process (r : Reader) (pp : list string) : result string :=
  match r with
  | Complete d => if is_image d then Ok d else Err ErrProcessing
  | Broken _ => Err ErrRead
  end.

(** Four permits; the context [true] is one that is already done. *)
Definition acquire (done : bool) (held : Z) : AcquireOutcome :=
  if held <? 4 then Acquired else if done then Refused else Waits.

Definition env : Env := {|
  Ctx := bool;
  Background := false;
  Processor := string;
  Pixbuf := string;
  Temp := "/tmp";
  Join := fun a b => a ++ "/" ++ b;
  url_Parse := parse;
  IsLetter := letter;
  IsDigit := digit;
  os_WriteFile := fun _ _ => Written;
  sema_Acquire := acquire;
  Client_Do := fun _ url => serve url;
  ProcessStream := process;
  ProcessAnimationStream := process;
  PixbufLoaderNew := true;
  size_prepared := fun b => if is_image b then Some (200, 50) else None;
  area_prepared := fun b _ => is_image b;
  Loader_Write := fun b _ => is_image b;
  Loader_Close := fun b _ => is_image b;
  Loader_GetPixbuf := fun b _ => if is_image b then Some b else None;
|}.

(** An empty cache, no permit in use. *)
Definition fresh : World := {| files := ∅; held := 0 |}.

(** A temp root after a change of [CacheHash]. *)
Definition tmp : TempRoot := {|
  listable := true;
  entries :=
    <["gtkcord3-hackadoll2" := Dir [("img.example", Dir [("_a.png_", File "img:a")])]]>
    (<["gtkcord3-hackadoll3" := Dir []]>
    (<["gtkcord3" := Dir []]>
    (<["notes.txt" := File "x"]> ∅)));
|}.

End Demo.


(** ** Vocabulary for the properties *)

(** The file an event touches. *)
Definition touched (e : Event) : option string :=
  match e with
  | EvOpen p | EvWriteFile p _ | EvRemove p => Some p
  | _ => None
  end.

(** The animated flag an event was produced under. *)
Definition animated (e : Event) : option bool :=
  match e with
  | EvProcess a | EvShow a => Some a
  | _ => None
  end.

Definition is_GET (e : Event) : bool :=
  match e with EvGET _ => true | _ => false end.
Definition is_Acquire (e : Event) : bool :=
  match e with EvAcquire => true | _ => false end.
Definition is_Release (e : Event) : bool :=
  match e with EvRelease => true | _ => false end.
Definition is_WriteFile (e : Event) : bool :=
  match e with EvWriteFile _ _ => true | _ => false end.

Fixpoint count (p : Event -> bool) (evs : list Event) : nat :=
  match evs with
  | [] => 0%nat
  | e :: evs' => ((if p e then 1 else 0) + count p evs')%nat
  end.

(** Served from the disk store alone: no GET, no permit, no write. *)
Definition from_disk (evs : list Event) : Prop :=
  count is_GET evs = 0%nat /\ count is_Acquire evs = 0%nat /\
  count is_WriteFile evs = 0%nat.

(** The path [TransformURL] returns for [s]; it is the same in every
    world. *)
Definition CacheKey (E : Env) (s : string) : string :=
  match outcome (TransformURL E s {| files := ∅; held := 0 |}) with
  | Returns dst => dst
  | _ => EmptyString
  end.

(** The URL [SetImageScaledContext] goes on with (cache.go, 197-203). *)
Definition fetched_url (url : string) : string :=
  if Contains url "gif" then Replace url "gif" "png" else url.

(** An event of a bind that goes on with [url], the cache file [dst] and
    the animated flag [gif]. *)
Definition respects (url dst : string) (gif : bool) (e : Event) : Prop :=
  match e with
  | EvGET u => u = url
  | EvOpen p | EvWriteFile p _ | EvRemove p => p = dst
  | EvProcess a | EvShow a => a = gif
  | _ => True
  end.


(** The transport succeeds: a permit, a request, and a response. *)
Definition transport_succeeds (E : Env) (ctx : Ctx E) (url : string)
           (w0 : World) (resp : Response) : Prop :=
  sema_Acquire E ctx (held w0) = Acquired /\
  NewRequestWithContext E url = None /\
  Client_Do E ctx url = Ok resp.

Definition failed {A} (o : Outcome (result A)) : Prop :=
  exists e, o = Returns (Err e).

(** C4 in the words of the specification. *)
Definition error_iff_bad_status (E : Env) (ctx : Ctx E) (url : string)
           (pp : list (Processor E)) (gif : bool) (w0 : World)
           (resp : Response) : Prop :=
  transport_succeeds E ctx url w0 resp ->
  (failed (outcome (download E ctx url pp gif w0)) <->
   ~ (200 <= StatusCode resp <= 299)).

(** What [download] makes of the body of a response (cache.go, 126-141). *)
Definition body_result (E : Env) (r : Response) (pp : list (Processor E))
           (gif : bool) : result string :=
  if (0 <? length pp)%nat then
    if gif then ProcessAnimationStream E (Body r) pp
    else ProcessStream E (Body r) pp
  else
    match ReadAll (Body r) with
    | Ok b => Ok b
    | Err err => Err (Wrap err "Failed to download image")
    end.

(** [SetImageScaledContext] from the point where the URL and the flag
    are settled (cache.go, 204-222). *)
Definition bind_from (E : Env) (ctx : Ctx E) (url : string) (gif : bool)
           (w h : Z) (pp : list (Processor E)) : M (option error) :=
  (let* dst := TransformURL E url in
   let* err := setImageFromFile E dst gif w h in
   match err with
   | None => ret None
   | Some _ =>
     let* err := get E ctx url dst pp gif in
     match err with
     | Some err => ret (Some err)
     | None =>
       let* err := setImageFromFile E dst gif w h in
       match err with
       | Some err =>
         Remove dst ;;
         ret (Some (Wrap err "Failed to get pixbuf after downloading"))
       | None => ret None
       end
     end
   end)%go.

(** Every file an event touches is [dst]. *)
Definition touches_only (dst : string) (e : Event) : Prop :=
  match touched e with
  | Some p => p = dst
  | None => True
  end.

(** ** Binds that follow one another *)

(** The ways of binding a URL that return an error value: the cached
    ones, [SetImageScaledContext] and [GetPixbufScaled], and
    [SetImageAsync]. *)
Inductive Binder (E : Env) : Type :=
| ByImage (ctx : Ctx E) (w h : Z) (pp : list (Processor E))
| ByPixbuf (w h : Z) (pp : list (Processor E))
| ByAsync (w h : Z).

Arguments ByImage {E} & ctx w h pp.
Arguments ByPixbuf {E} & w h pp.
Arguments ByAsync {E} & w h.

(** A bind of [url]; the value is [true] when the function returned a
    nil error. *)
Definition run_bind (E : Env) (b : Binder E) (url : string) : M bool :=
  (match b with
   | ByImage ctx w h pp =>
     let* err := SetImageScaledContext E ctx url w h pp in
     ret (match err with None => true | Some _ => false end)
   | ByPixbuf w h pp =>
     let* p := GetPixbufScaled E url w h pp in
     ret (match p with Ok _ => true | Err _ => false end)
   | ByAsync w h =>
     let* err := SetImageAsync E url w h in
     ret (match err with None => true | Some _ => false end)
   end)%go.

(** C3 in the words of the specification: a second bind for the same
    URL after a first successful one issues zero network calls. *)
Definition second_bind_from_disk (E : Env) (url : string)
           (first second : Binder E) (w0 : World) : Prop :=
  let r1 := run_bind E first url w0 in
  outcome r1 = Returns true ->
  count is_GET (events (run_bind E second url (world r1))) = 0%nat.

(** A server with three images, one of them 1000 pixels wide and one
    pixel high, and a loader that, like gdk's PNG loader, gives up on an
    image whose requested size has a side of zero. *)
Module Gallery.

Definition serve (url : string) : result Response :=
  if String.eqb url "http://img.example/a.png"
  then Ok {| StatusCode := 200; Body := Complete "img:a" |}
  else if String.eqb url "http://img.example/a.gif"
  then Ok {| StatusCode := 200; Body := Complete "img:gif" |}
  else if String.eqb url "http://img.example/wide.png"
  then Ok {| StatusCode := 200; Body := Complete "img:wide" |}
  else Ok {| StatusCode := 404; Body := Complete "not found" |}.

Definition native (b : string) : option (Z * Z) :=
  if String.eqb b "img:wide" then Some (1000, 1)
  else if Demo.is_image b then Some (200, 50) else None.

Definition decodes (b : string) (size : option (Z * Z)) : bool :=
  Demo.is_image b &&
  match size with
  | Some (w, h) => negb (w =? 0) && negb (h =? 0)
  | None => true
  end.

Definition env : Env := {|
  Ctx := Ctx Demo.env;
  Background := Background Demo.env;
  Processor := Processor Demo.env;
  Pixbuf := Pixbuf Demo.env;
  Temp := Temp Demo.env;
  Join := Join Demo.env;
  url_Parse := url_Parse Demo.env;
  IsLetter := IsLetter Demo.env;
  IsDigit := IsDigit Demo.env;
  os_WriteFile := os_WriteFile Demo.env;
  sema_Acquire := sema_Acquire Demo.env;
  Client_Do := fun _ url => serve url;
  ProcessStream := ProcessStream Demo.env;
  ProcessAnimationStream := ProcessAnimationStream Demo.env;
  PixbufLoaderNew := true;
  size_prepared := native;
  area_prepared := decodes;
  Loader_Write := decodes;
  Loader_Close := decodes;
  Loader_GetPixbuf := fun b size => if decodes b size then Some b else None;
|}.

End Gallery.

(** ** More vocabulary *)

(** Every byte of a string satisfies [P]. *)
Fixpoint string_Forall (P : ascii -> Prop) (s : string) : Prop :=
  match s with
  | EmptyString => True
  | String c s' => P c /\ string_Forall P s'
  end.

Definition is_Remove (e : Event) : bool :=
  match e with EvRemove _ => true | _ => false end.

(** A run that leaves the throttler as it found it: as many permits
    released as acquired, and as many in use after as before. *)
Definition tidy {A} (w0 : World) (r : Run A) : Prop :=
  held (world r) = held w0 /\
  count is_Release (events r) = count is_Acquire (events r).

(** Dimensions that fit 32 bits, as gdk reports them. *)
Definition dim (z : Z) : Prop := 0 < z < 2 ^ 31.

Module Demo2.

(** The demo environment on a disk that is full: every write breaks
    after two bytes. *)
Definition full_disk : Env := {|
  Ctx := Ctx Demo.env;
  Background := Background Demo.env;
  Processor := Processor Demo.env;
  Pixbuf := Pixbuf Demo.env;
  Temp := Temp Demo.env;
  Join := Join Demo.env;
  url_Parse := url_Parse Demo.env;
  IsLetter := IsLetter Demo.env;
  IsDigit := IsDigit Demo.env;
  os_WriteFile := fun _ b => Flushed (String.substring 0 2 b);
  sema_Acquire := sema_Acquire Demo.env;
  Client_Do := Client_Do Demo.env;
  ProcessStream := ProcessStream Demo.env;
  ProcessAnimationStream := ProcessAnimationStream Demo.env;
  PixbufLoaderNew := PixbufLoaderNew Demo.env;
  size_prepared := size_prepared Demo.env;
  area_prepared := area_prepared Demo.env;
  Loader_Write := Loader_Write Demo.env;
  Loader_Close := Loader_Close Demo.env;
  Loader_GetPixbuf := Loader_GetPixbuf Demo.env;
|}.

(** An empty cache while all four permits are in use. *)
Definition busy : World := {| files := ∅; held := 4 |}.

End Demo2.

(** The width the decoder reports, against the rune it yields. *)
Definition decoded (len : nat) (r : Z) (n : nat) : Prop :=
  (1 <= n <= len)%nat /\
  ((n = 1%nat /\ (0 <= r < 128 \/ r = utf8.RuneError)) \/
   (n = 2%nat /\ 128 <= r <= 2047) \/
   (n = 3%nat /\ 2048 <= r <= 65535 /\ ~ (55296 <= r <= 57343)) \/
   (n = 4%nat /\ 65536 <= r <= 1114111)).

(** An event that stays on the machine and changes no file: making the
    directory of the host, opening a file, showing an image. *)
Definition is_local (e : Event) : Prop :=
  match e with
  | EvMkdirAll _ | EvOpen _ | EvShow _ => True
  | _ => False
  end.

(** One attempt: at most one permit, one GET and one write. *)
Definition single_attempt (evs : list Event) : Prop :=
  (count is_Acquire evs <= 1)%nat /\ (count is_GET evs <= 1)%nat /\
  (count is_WriteFile evs <= 1)%nat.
(** * Properties *)

(** ** Go's [int] *)

Lemma pow_half : 2 ^ (GoInt.intSize - 1) = 9223372036854775808.
Proof. reflexivity. Qed.

Lemma pow_full : 2 ^ GoInt.intSize = 18446744073709551616.
Proof. reflexivity. Qed.

Lemma MaxInt_value : GoInt.MaxInt = 9223372036854775807.
Proof. reflexivity. Qed.

Lemma MinInt_value : GoInt.MinInt = -9223372036854775808.
Proof. reflexivity. Qed.

Lemma wrap_in_range z : GoInt.in_range z -> GoInt.wrap z = z.
Proof.
  unfold GoInt.in_range, GoInt.wrap.
  rewrite MaxInt_value, MinInt_value, pow_half, pow_full. intros H.
  rewrite Z.mod_small; lia.
Qed.

Lemma wrap_range z : GoInt.in_range (GoInt.wrap z).
Proof.
  unfold GoInt.in_range, GoInt.wrap.
  rewrite MaxInt_value, MinInt_value, pow_half, pow_full.
  pose proof (Z.mod_pos_bound (z + 9223372036854775808) 18446744073709551616).
  lia.
Qed.

(** A product that fits is the mathematical one. *)
Lemma mul_exact a b :
  0 <= a -> 0 <= b -> a * b <= GoInt.MaxInt -> GoInt.mul a b = a * b.
Proof.
  intros Ha Hb Hab. unfold GoInt.mul. apply wrap_in_range.
  unfold GoInt.in_range. rewrite MinInt_value. nia.
Qed.

(** On a non-negative dividend and a positive divisor, [/] is the floor. *)
Lemma div_exact a b :
  0 <= a <= GoInt.MaxInt -> 0 < b -> GoInt.div a b = Some (a / b).
Proof.
  intros Ha Hb. unfold GoInt.div.
  destruct (Z.eqb_spec b 0) as [->|_]; [lia|].
  rewrite Z.quot_div_nonneg by lia.
  rewrite wrap_in_range; [reflexivity|].
  unfold GoInt.in_range. rewrite MinInt_value.
  assert (0 <= a / b) by (apply Z.div_pos; lia).
  assert (a / b <= a) by (apply Z.div_le_upper_bound; nia).
  lia.
Qed.

(** ** [MaxSize] *)

Example MaxSize_scenario_A : MaxSize 200 50 100 100 = Some (100, 25).
Proof. reflexivity. Qed.

Example MaxSize_inside : MaxSize 20 30 100 100 = Some (20, 30).
Proof. reflexivity. Qed.

Example MaxSize_zero_divisor : MaxSize 0 0 0 0 = None.
Proof. reflexivity. Qed.

(** The scaled side: [a * m / b] when the product fits. *)
Lemma scale_exact a m b :
  0 < a -> 0 < m -> 0 < b -> a * m <= GoInt.MaxInt ->
  GoInt.div (GoInt.mul a m) b = Some (a * m / b).
Proof.
  intros Ha Hm Hb Hfit.
  rewrite mul_exact by lia. apply div_exact; nia.
Qed.

Lemma floor_bounds n d : 0 < d -> (n / d) * d <= n < (n / d + 1) * d.
Proof.
  intros Hd. pose proof (Z.div_mod n d ltac:(lia)).
  pose proof (Z.mod_pos_bound n d Hd). nia.
Qed.

(** C2, amended: for strictly positive arguments whose product formed by
    the code ([h * maxW] when [w > h], [w * maxH] otherwise) does not
    exceed the largest [int], [MaxSize] returns its input inside the
    bound, and otherwise [(maxW, h * maxW / w)] when [w > h] and
    [(w * maxH / h, maxH)] when [w <= h], truncated; the output then
    keeps the aspect ratio up to that truncation, and its larger side is
    the one set to its bound. *)
Theorem MaxSize_without_overflow (w h maxW maxH : Z) :
  0 < w -> 0 < h -> 0 < maxW -> 0 < maxH ->
  (~ (w < maxW /\ h < maxH) -> MaxSize_product w h maxW maxH <= GoInt.MaxInt) ->
  MaxSize_spec w h maxW maxH (MaxSize w h maxW maxH) /\
  MaxSize_scaled w h maxW maxH (MaxSize w h maxW maxH).
Proof.
  intros Hw Hh HmW HmH Hfit.
  unfold MaxSize_spec, MaxSize_scaled, MaxSize, MaxSize_product in *.
  destruct (Z.ltb_spec w maxW) as [Hlw|Hlw];
    destruct (Z.ltb_spec h maxH) as [Hlh|Hlh]; simpl;
    try (destruct (Z.gtb_spec w h) as [Hgt|Hle];
         [ rewrite (scale_exact h maxW w) by (try apply Hfit; lia)
         | rewrite (scale_exact w maxH h) by (try apply Hfit; lia) ];
         (split; [repeat split; intros; (reflexivity || lia)|]);
         intros _; eexists _, _; (split; [reflexivity|]);
         [ pose proof (floor_bounds (h * maxW) w Hw);
           assert (h * maxW / w <= maxW)
             by (apply Z.div_le_upper_bound; nia)
         | pose proof (floor_bounds (w * maxH) h Hh);
           assert (w * maxH / h <= maxH)
             by (apply Z.div_le_upper_bound; nia) ];
         lia).
  split; [repeat split; intros; (reflexivity || lia)|]. intros H. lia.
Qed.

Lemma MaxSize_without_overflow_witness :
  MaxSize_spec 200 50 100 100 (MaxSize 200 50 100 100) /\
  MaxSize_scaled 200 50 100 100 (MaxSize 200 50 100 100).
Proof.
  apply (MaxSize_without_overflow 200 50 100 100); try lia.
  intros _. vm_compute. discriminate.
Defined.

(** C2 as stated fails where the product wraps around: a 2^40 by 2^40 - 1
    image in a 2^30 by 1 box comes out with height 0 instead of
    2^30 - 1. *)
Lemma MaxSize_wraps_around :
  let w := 2 ^ 40 in let h := 2 ^ 40 - 1 in
  let maxW := 2 ^ 30 in let maxH := 1 in
  (0 < w /\ 0 < h /\ 0 < maxW /\ 0 < maxH) /\
  (GoInt.in_range w /\ GoInt.in_range h /\
   GoInt.in_range maxW /\ GoInt.in_range maxH) /\
  MaxSize w h maxW maxH = Some (2 ^ 30, 0) /\
  ~ MaxSize_spec w h maxW maxH (MaxSize w h maxW maxH) /\
  ~ MaxSize_scaled w h maxW maxH (MaxSize w h maxW maxH).
Proof.
  cbv zeta. split; [lia|]. split.
  { unfold GoInt.in_range. rewrite MaxInt_value, MinInt_value. lia. }
  split; [vm_compute; reflexivity|]. split.
  - intros (_ & H & _).
    assert (Hout : ~ (2 ^ 40 < 2 ^ 30 /\ 2 ^ 40 - 1 < 1)) by lia.
    specialize (H Hout ltac:(lia)). vm_compute in H. discriminate.
  - intros H.
    destruct H as (ow & oh & Heq & Hrest); [lia|].
    vm_compute in Heq. injection Heq as <- <-.
    vm_compute in Hrest. destruct Hrest as (_ & _ & _ & Hlt).
    discriminate.
Qed.

(** C10: [MaxSize] can scale up.  A 3 by 2 image in a 100 by 2 box (only
    the height reaches its bound) comes out 100 by 66: both sides grow
    and the height exceeds its bound. *)
Theorem MaxSize_can_scale_up :
  exists w h maxW maxH ow oh,
    (0 < w /\ 0 < h /\ 0 < maxW /\ 0 < maxH) /\
    (w < maxW /\ maxH <= h) /\
    MaxSize w h maxW maxH = Some (ow, oh) /\
    w < ow /\ h < oh /\ maxH < oh.
Proof.
  exists 3, 2, 100, 2, 100, 66.
  split; [lia|]. split; [lia|]. split; [reflexivity|]. lia.
Qed.

(** ** Bytes and bit operations *)

Lemma val_range c : 0 <= utf8.val c < 256.
Proof.
  unfold utf8.val. pose proof (N_ascii_bounded c). lia.
Qed.

Lemma val_chr z : utf8.val (utf8.chr z) = z mod 256.
Proof.
  unfold utf8.val, utf8.chr.
  pose proof (Z.mod_pos_bound z 256 ltac:(lia)).
  rewrite N_ascii_embedding by lia. lia.
Qed.

Lemma val_chr_small z : 0 <= z < 256 -> utf8.val (utf8.chr z) = z.
Proof. intros H. rewrite val_chr. apply Z.mod_small, H. Qed.

(** Two numbers without a common bit are added by [Z.lor]. *)
Lemma lor_disjoint (n k b : Z) :
  0 <= n -> 0 <= b < 2 ^ n -> Z.lor (k * 2 ^ n) b = k * 2 ^ n + b.
Proof.
  intros Hn Hb.
  assert (Hland : Z.land (k * 2 ^ n) b = 0).
  { apply Z.bits_inj'. intros i Hi.
    rewrite Z.land_spec, Z.bits_0.
    destruct (Z.lt_ge_cases i n) as [Hlt|Hge].
    - rewrite Z.mul_pow2_bits_low by lia. reflexivity.
    - rewrite <- (Z.mod_small b (2 ^ n)) by lia.
      rewrite Z.mod_pow2_bits_high by lia. apply andb_false_r. }
  rewrite <- Z.lxor_lor by exact Hland.
  symmetry. apply Z.add_nocarry_lxor, Hland.
Qed.

Lemma land_63 x : Z.land x 63 = x mod 64.
Proof. change 63 with (Z.ones 6). rewrite Z.land_ones by lia. reflexivity. Qed.
Lemma land_31 x : Z.land x 31 = x mod 32.
Proof. change 31 with (Z.ones 5). rewrite Z.land_ones by lia. reflexivity. Qed.
Lemma land_15 x : Z.land x 15 = x mod 16.
Proof. change 15 with (Z.ones 4). rewrite Z.land_ones by lia. reflexivity. Qed.
Lemma land_7 x : Z.land x 7 = x mod 8.
Proof. change 7 with (Z.ones 3). rewrite Z.land_ones by lia. reflexivity. Qed.

Lemma shiftl_6 x : Z.shiftl x 6 = x * 64.
Proof. rewrite Z.shiftl_mul_pow2 by lia. reflexivity. Qed.
Lemma shiftl_12 x : Z.shiftl x 12 = x * 4096.
Proof. rewrite Z.shiftl_mul_pow2 by lia. reflexivity. Qed.
Lemma shiftl_18 x : Z.shiftl x 18 = x * 262144.
Proof. rewrite Z.shiftl_mul_pow2 by lia. reflexivity. Qed.
Lemma shiftr_6 x : Z.shiftr x 6 = x / 64.
Proof. rewrite Z.shiftr_div_pow2 by lia. reflexivity. Qed.
Lemma shiftr_12 x : Z.shiftr x 12 = x / 4096.
Proof. rewrite Z.shiftr_div_pow2 by lia. reflexivity. Qed.
Lemma shiftr_18 x : Z.shiftr x 18 = x / 262144.
Proof. rewrite Z.shiftr_div_pow2 by lia. reflexivity. Qed.

(** [hi | lo] when [hi] is a multiple of [2 ^ n] and [lo] is below it. *)
Lemma lor_add (n hi lo : Z) :
  0 <= n -> hi mod 2 ^ n = 0 -> 0 <= lo < 2 ^ n -> Z.lor hi lo = hi + lo.
Proof.
  intros Hn Hhi Hlo.
  assert (Hpos : 0 < 2 ^ n) by (apply Z.pow_pos_nonneg; lia).
  pose proof (Z.div_mod hi (2 ^ n) ltac:(lia)) as Hdm.
  rewrite Hhi, Z.add_0_r, Z.mul_comm in Hdm.
  rewrite Hdm at 1. rewrite lor_disjoint by lia. lia.
Qed.

Ltac arith := Z.div_mod_to_equations; lia.

(** The value assembled from two, three and four bytes. *)
Lemma value2 a b :
  0 <= a < 256 -> 0 <= b < 256 ->
  Z.lor (Z.shiftl (Z.land a utf8.mask2) 6) (Z.land b utf8.maskx)
  = (a mod 32) * 64 + b mod 64.
Proof.
  intros Ha Hb. unfold utf8.mask2, utf8.maskx.
  rewrite land_31, land_63, shiftl_6.
  apply (lor_add 6); [lia| |]; change (2 ^ 6) with 64; arith.
Qed.

Lemma value3 a b c :
  0 <= a < 256 -> 0 <= b < 256 -> 0 <= c < 256 ->
  Z.lor (Z.lor (Z.shiftl (Z.land a utf8.mask3) 12)
               (Z.shiftl (Z.land b utf8.maskx) 6))
        (Z.land c utf8.maskx)
  = (a mod 16) * 4096 + (b mod 64) * 64 + c mod 64.
Proof.
  intros Ha Hb Hc. unfold utf8.mask3, utf8.maskx.
  rewrite land_15, !land_63, shiftl_6, shiftl_12.
  rewrite (lor_add 12 (a mod 16 * 4096));
    [|lia|change (2 ^ 12) with 4096; arith..].
  apply (lor_add 6); [lia| |]; change (2 ^ 6) with 64; arith.
Qed.

Lemma value4 a b c d :
  0 <= a < 256 -> 0 <= b < 256 -> 0 <= c < 256 -> 0 <= d < 256 ->
  Z.lor (Z.lor (Z.lor (Z.shiftl (Z.land a utf8.mask4) 18)
                      (Z.shiftl (Z.land b utf8.maskx) 12))
               (Z.shiftl (Z.land c utf8.maskx) 6))
        (Z.land d utf8.maskx)
  = (a mod 8) * 262144 + (b mod 64) * 4096 + (c mod 64) * 64 + d mod 64.
Proof.
  intros Ha Hb Hc Hd. unfold utf8.mask4, utf8.maskx.
  rewrite land_7, !land_63, shiftl_6, shiftl_12, shiftl_18.
  rewrite (lor_add 18 (a mod 8 * 262144));
    [|lia|change (2 ^ 18) with 262144; arith..].
  rewrite (lor_add 12 (a mod 8 * 262144 + b mod 64 * 4096));
    [|lia|change (2 ^ 12) with 4096; arith..].
  apply (lor_add 6); [lia| |]; change (2 ^ 6) with 64; arith.
Qed.

(** The bytes [EncodeRune] writes. *)
Lemma lead2 r : 128 <= r <= 2047 ->
  Z.lor utf8.t2 (Z.shiftr r 6) = 192 + r / 64.
Proof.
  intros Hr. unfold utf8.t2. rewrite shiftr_6.
  apply (lor_add 6); [lia|reflexivity|change (2 ^ 6) with 64; arith].
Qed.

Lemma lead3 r : 0 <= r <= 65535 ->
  Z.lor utf8.t3 (Z.shiftr r 12) = 224 + r / 4096.
Proof.
  intros Hr. unfold utf8.t3. rewrite shiftr_12.
  apply (lor_add 4); [lia|reflexivity|change (2 ^ 4) with 16; arith].
Qed.

Lemma lead4 r : 0 <= r <= 1114111 ->
  Z.lor utf8.t4 (Z.shiftr r 18) = 240 + r / 262144.
Proof.
  intros Hr. unfold utf8.t4. rewrite shiftr_18.
  apply (lor_add 3); [lia|reflexivity|change (2 ^ 3) with 8; arith].
Qed.

Lemma cont x : Z.lor utf8.tx (Z.land (x mod 256) utf8.maskx) = 128 + x mod 64.
Proof.
  unfold utf8.tx, utf8.maskx. rewrite land_63.
  rewrite (lor_add 6); [|lia|reflexivity|change (2 ^ 6) with 64; arith].
  arith.
Qed.

(** ** UTF-8 *)

(** The table is a chain of tests: one test at a time, outermost first. *)
Ltac first_hyp H :=
  unfold utf8.first, utf8.locb, utf8.hicb in H;
  repeat match type of H with
         | (if ?a <? ?b then _ else _) = _ =>
           destruct (Z.ltb_spec a b);
           [try discriminate H; try (injection H as <- <- <-; lia)|]
         | (if ?a =? ?b then _ else _) = _ =>
           destruct (Z.eqb_spec a b);
           [try discriminate H; try (injection H as <- <- <-; lia)|]
         end.

Ltac first_goal :=
  unfold utf8.first, utf8.locb, utf8.hicb;
  repeat match goal with
         | |- (if ?a <? ?b then _ else _) = _ =>
           destruct (Z.ltb_spec a b); [try lia|]
         | |- (if ?a =? ?b then _ else _) = _ =>
           destruct (Z.eqb_spec a b); [try lia|]
         end;
  repeat match goal with
         | |- context [?a =? ?b] => destruct (Z.eqb_spec a b); try lia
         end;
  try reflexivity; try lia.

(** What the table [first] announces, read backwards. *)
Lemma first_SEQ s0 sz lo hi :
  utf8.first s0 = utf8.SEQ sz lo hi ->
  (sz = 2%nat /\ 194 <= s0 < 224 /\ lo = 128 /\ hi = 191) \/
  (sz = 3%nat /\ s0 = 224 /\ lo = 160 /\ hi = 191) \/
  (sz = 3%nat /\ 225 <= s0 < 240 /\ s0 <> 237 /\ lo = 128 /\ hi = 191) \/
  (sz = 3%nat /\ s0 = 237 /\ lo = 128 /\ hi = 159) \/
  (sz = 4%nat /\ s0 = 240 /\ lo = 144 /\ hi = 191) \/
  (sz = 4%nat /\ 241 <= s0 < 244 /\ lo = 128 /\ hi = 191) \/
  (sz = 4%nat /\ s0 = 244 /\ lo = 128 /\ hi = 143).
Proof. intros H. first_hyp H. discriminate H. Qed.

Lemma first_AS s0 : utf8.first s0 = utf8.AS -> s0 < 128.
Proof. intros H. first_hyp H; (lia || discriminate H). Qed.

Lemma first_ascii s0 : s0 < 128 -> utf8.first s0 = utf8.AS.
Proof. intros H. first_goal. Qed.

Lemma first_2 s0 : 194 <= s0 < 224 -> utf8.first s0 = utf8.SEQ 2 128 191.
Proof. intros H. first_goal. Qed.

Lemma first_3 s0 :
  224 <= s0 < 240 ->
  utf8.first s0 =
  utf8.SEQ 3 (if s0 =? 224 then 160 else 128) (if s0 =? 237 then 159 else 191).
Proof. intros H. first_goal. Qed.

Lemma first_4 s0 :
  240 <= s0 < 245 ->
  utf8.first s0 =
  utf8.SEQ 4 (if s0 =? 240 then 144 else 128) (if s0 =? 244 then 143 else 191).
Proof. intros H. first_goal. Qed.

Lemma scalar_RuneError : scalar utf8.RuneError.
Proof.
  unfold scalar, utf8.RuneError, utf8.MaxRune, utf8.surrogateMin,
    utf8.surrogateMax. lia.
Qed.

Lemma at_0 c s : utf8.at_ (String c s) 0 = utf8.val c.
Proof. reflexivity. Qed.

Lemma at_S c s i : utf8.at_ (String c s) (S i) = utf8.at_ s i.
Proof. reflexivity. Qed.

Lemma at_range s i : 0 <= utf8.at_ s i < 256.
Proof.
  unfold utf8.at_. destruct (String.get i s); [apply val_range|lia].
Qed.

Ltac scalar_arith :=
  unfold scalar, utf8.MaxRune, utf8.surrogateMin, utf8.surrogateMax;
  Z.div_mod_to_equations; lia.

(** The decoder only yields scalar values. *)
Lemma DecodeRuneInString_scalar s : scalar (utf8.DecodeRuneInString s).1.
Proof.
  unfold utf8.DecodeRuneInString.
  destruct (String.length s <? 1)%nat; [apply scalar_RuneError|].
  pose proof (at_range s 0) as H0. pose proof (at_range s 1) as H1.
  pose proof (at_range s 2) as H2. pose proof (at_range s 3) as H3.
  generalize dependent (utf8.at_ s 0). intros a Ha.
  generalize dependent (utf8.at_ s 1). intros b Hb.
  generalize dependent (utf8.at_ s 2). intros c Hc.
  generalize dependent (utf8.at_ s 3). intros d Hd.
  destruct (utf8.first a) as [| |sz lo hi] eqn:Hf;
    [|apply scalar_RuneError|].
  { apply first_AS in Hf. simpl. scalar_arith. }
  apply first_SEQ in Hf.
  destruct (String.length s <? sz)%nat; [apply scalar_RuneError|].
  destruct (Z.ltb_spec b lo); [apply scalar_RuneError|].
  destruct (Z.ltb_spec hi b); [apply scalar_RuneError|].
  cbn [orb]. unfold utf8.locb, utf8.hicb.
  destruct Hf as [Hf|[Hf|[Hf|[Hf|[Hf|[Hf|Hf]]]]]];
    destruct Hf as (-> & Hf); cbn [Nat.leb].
  - cbn [fst]. rewrite value2 by assumption. scalar_arith.
  - destruct Hf as (-> & -> & ->).
    destruct (Z.ltb_spec c 128); [apply scalar_RuneError|].
    destruct (Z.ltb_spec 191 c); [apply scalar_RuneError|].
    cbn [orb fst]. rewrite value3 by lia. scalar_arith.
  - destruct Hf as (Hr & Hne & -> & ->).
    destruct (Z.ltb_spec c 128); [apply scalar_RuneError|].
    destruct (Z.ltb_spec 191 c); [apply scalar_RuneError|].
    cbn [orb fst]. rewrite value3 by lia. scalar_arith.
  - destruct Hf as (-> & -> & ->).
    destruct (Z.ltb_spec c 128); [apply scalar_RuneError|].
    destruct (Z.ltb_spec 191 c); [apply scalar_RuneError|].
    cbn [orb fst]. rewrite value3 by lia. scalar_arith.
  - destruct Hf as (-> & -> & ->).
    destruct (Z.ltb_spec c 128); [apply scalar_RuneError|].
    destruct (Z.ltb_spec 191 c); [apply scalar_RuneError|].
    destruct (Z.ltb_spec d 128); [apply scalar_RuneError|].
    destruct (Z.ltb_spec 191 d); [apply scalar_RuneError|].
    cbn [orb fst]. rewrite value4 by lia. scalar_arith.
  - destruct Hf as (Hr & -> & ->).
    destruct (Z.ltb_spec c 128); [apply scalar_RuneError|].
    destruct (Z.ltb_spec 191 c); [apply scalar_RuneError|].
    destruct (Z.ltb_spec d 128); [apply scalar_RuneError|].
    destruct (Z.ltb_spec 191 d); [apply scalar_RuneError|].
    cbn [orb fst]. rewrite value4 by lia. scalar_arith.
  - destruct Hf as (-> & -> & ->).
    destruct (Z.ltb_spec c 128); [apply scalar_RuneError|].
    destruct (Z.ltb_spec 191 c); [apply scalar_RuneError|].
    destruct (Z.ltb_spec d 128); [apply scalar_RuneError|].
    destruct (Z.ltb_spec 191 d); [apply scalar_RuneError|].
    cbn [orb fst]. rewrite value4 by lia. scalar_arith.
Qed.

Lemma append_String c (s t : string) : String c s ++ t = String c (s ++ t).
Proof. reflexivity. Qed.

Lemma append_Empty (t : string) : EmptyString ++ t = t.
Proof. reflexivity. Qed.

(** The decoder on a well-formed sequence of one to four bytes. *)
Lemma decode1 c0 rest :
  utf8.val c0 < 128 ->
  utf8.DecodeRuneInString (String c0 rest) = (utf8.val c0, 1%nat).
Proof.
  intros H. unfold utf8.DecodeRuneInString.
  cbn [String.length Nat.ltb Nat.leb]. rewrite at_0, first_ascii by exact H.
  reflexivity.
Qed.

Lemma decode2 c0 c1 rest :
  194 <= utf8.val c0 < 224 -> 128 <= utf8.val c1 <= 191 ->
  utf8.DecodeRuneInString (String c0 (String c1 rest))
  = (utf8.val c0 mod 32 * 64 + utf8.val c1 mod 64, 2%nat).
Proof.
  intros H0 H1. unfold utf8.DecodeRuneInString.
  cbn [String.length Nat.ltb Nat.leb]. rewrite !at_S, !at_0.
  rewrite first_2 by exact H0. cbn [Nat.ltb Nat.leb].
  destruct (Z.ltb_spec (utf8.val c1) 128); [lia|].
  destruct (Z.ltb_spec 191 (utf8.val c1)); [lia|].
  cbn [orb]. rewrite value2 by apply val_range. reflexivity.
Qed.

Lemma decode3 c0 c1 c2 rest :
  224 <= utf8.val c0 < 240 ->
  (if utf8.val c0 =? 224 then 160 else 128) <= utf8.val c1
    <= (if utf8.val c0 =? 237 then 159 else 191) ->
  128 <= utf8.val c2 <= 191 ->
  utf8.DecodeRuneInString (String c0 (String c1 (String c2 rest)))
  = (utf8.val c0 mod 16 * 4096 + utf8.val c1 mod 64 * 64
     + utf8.val c2 mod 64, 3%nat).
Proof.
  intros H0 H1 H2. unfold utf8.DecodeRuneInString.
  cbn [String.length Nat.ltb Nat.leb]. rewrite !at_S, !at_0.
  rewrite first_3 by exact H0. cbn [Nat.ltb Nat.leb].
  destruct (Z.ltb_spec (utf8.val c1)
              (if utf8.val c0 =? 224 then 160 else 128)); [lia|].
  destruct (Z.ltb_spec (if utf8.val c0 =? 237 then 159 else 191)
              (utf8.val c1)); [lia|].
  unfold utf8.locb, utf8.hicb.
  destruct (Z.ltb_spec (utf8.val c2) 128); [lia|].
  destruct (Z.ltb_spec 191 (utf8.val c2)); [lia|].
  cbn [orb]. rewrite value3 by apply val_range. reflexivity.
Qed.

Lemma decode4 c0 c1 c2 c3 rest :
  240 <= utf8.val c0 < 245 ->
  (if utf8.val c0 =? 240 then 144 else 128) <= utf8.val c1
    <= (if utf8.val c0 =? 244 then 143 else 191) ->
  128 <= utf8.val c2 <= 191 ->
  128 <= utf8.val c3 <= 191 ->
  utf8.DecodeRuneInString (String c0 (String c1 (String c2 (String c3 rest))))
  = (utf8.val c0 mod 8 * 262144 + utf8.val c1 mod 64 * 4096
     + utf8.val c2 mod 64 * 64 + utf8.val c3 mod 64, 4%nat).
Proof.
  intros H0 H1 H2 H3. unfold utf8.DecodeRuneInString.
  cbn [String.length Nat.ltb Nat.leb]. rewrite !at_S, !at_0.
  rewrite first_4 by exact H0. cbn [Nat.ltb Nat.leb].
  destruct (Z.ltb_spec (utf8.val c1)
              (if utf8.val c0 =? 240 then 144 else 128)); [lia|].
  destruct (Z.ltb_spec (if utf8.val c0 =? 244 then 143 else 191)
              (utf8.val c1)); [lia|].
  unfold utf8.locb, utf8.hicb.
  destruct (Z.ltb_spec (utf8.val c2) 128); [lia|].
  destruct (Z.ltb_spec 191 (utf8.val c2)); [lia|].
  destruct (Z.ltb_spec (utf8.val c3) 128); [lia|].
  destruct (Z.ltb_spec 191 (utf8.val c3)); [lia|].
  cbn [orb]. rewrite value4 by apply val_range. reflexivity.
Qed.

(** [encode3] and [encode4] on the runes they are called with. *)
Lemma decode_encode3 r rest :
  2048 <= r <= 65535 -> ~ (55296 <= r <= 57343) ->
  utf8.DecodeRuneInString (utf8.encode3 r ++ rest) = (r, 3%nat).
Proof.
  intros Hr Hs. unfold utf8.encode3. rewrite !append_String, append_Empty.
  rewrite lead3 by lia. rewrite shiftr_6, !cont.
  assert (Hq : 0 <= r / 4096 < 16) by arith.
  assert (H1 : 0 <= (r / 64) mod 64 < 64) by arith.
  assert (H2 : 0 <= r mod 64 < 64) by arith.
  rewrite decode3; rewrite ?val_chr_small by lia; try arith.
  - f_equal. arith.
  - destruct (Z.eqb_spec (224 + r / 4096) 224);
      destruct (Z.eqb_spec (224 + r / 4096) 237); arith.
Qed.

Lemma decode_encode4 r rest :
  65536 <= r <= 1114111 ->
  utf8.DecodeRuneInString (utf8.encode4 r ++ rest) = (r, 4%nat).
Proof.
  intros Hr. unfold utf8.encode4. rewrite !append_String, append_Empty.
  rewrite lead4 by lia. rewrite shiftr_6, shiftr_12, !cont.
  assert (Hq : 0 <= r / 262144 < 5) by arith.
  assert (H1 : 0 <= (r / 4096) mod 64 < 64) by arith.
  assert (H2 : 0 <= (r / 64) mod 64 < 64) by arith.
  assert (H3 : 0 <= r mod 64 < 64) by arith.
  rewrite decode4; rewrite ?val_chr_small by lia; try arith.
  - f_equal. arith.
  - destruct (Z.eqb_spec (240 + r / 262144) 240);
      destruct (Z.eqb_spec (240 + r / 262144) 244); arith.
Qed.

(** Decoding what was encoded: the rune comes back, with the width
    written. *)
Lemma decode_encode r rest :
  scalar r ->
  utf8.DecodeRuneInString (utf8.EncodeRune r ++ rest)
  = (r, String.length (utf8.EncodeRune r)) /\
  (0 < String.length (utf8.EncodeRune r))%nat.
Proof.
  unfold scalar, utf8.MaxRune, utf8.surrogateMin, utf8.surrogateMax.
  intros [Hr Hs]. unfold utf8.EncodeRune.
  unfold utf8.rune1Max, utf8.rune2Max, utf8.rune3Max, utf8.MaxRune,
    utf8.surrogateMin, utf8.surrogateMax.
  destruct (Z.leb_spec 0 r); [|lia]. cbn [andb].
  destruct (Z.leb_spec r 127).
  { rewrite !append_String, append_Empty. cbn [String.length]. split; [|lia].
    rewrite decode1; rewrite val_chr_small by lia; [reflexivity|lia]. }
  destruct (Z.leb_spec r 2047).
  { rewrite !append_String, append_Empty. cbn [String.length]. split; [|lia].
    rewrite lead2, cont by lia.
    assert (0 <= r / 64 < 32) by arith.
    assert (0 <= r mod 64 < 64) by arith.
    rewrite decode2; rewrite ?val_chr_small by lia; try arith.
    f_equal. arith. }
  destruct (Z.ltb_spec r 0); [lia|].
  destruct (Z.ltb_spec 1114111 r); [lia|].
  destruct (Z.leb_spec 55296 r); destruct (Z.leb_spec r 57343); try lia;
    cbn [orb andb].
  all: destruct (Z.leb_spec r 65535);
    [ split; [apply decode_encode3; lia|cbn; lia]
    | split; [apply decode_encode4; lia|cbn; lia] ].
Qed.

(** ** Ranging over a string, and [strings.Map] *)

Lemma runes_from_skip (t rest : string) :
  utf8.runes_from (String.length t) (t ++ rest) = utf8.runes rest.
Proof.
  induction t as [|c t IH]; [reflexivity|].
  rewrite append_String. exact IH.
Qed.

(** Ranging over an encoded rune followed by [rest]. *)
Lemma runes_EncodeRune r rest :
  scalar r -> utf8.runes (utf8.EncodeRune r ++ rest) = r :: utf8.runes rest.
Proof.
  intros Hr. destruct (decode_encode r rest Hr) as [Hdec Hlen].
  destruct (utf8.EncodeRune r) as [|c t]; [cbn in Hlen; lia|].
  unfold utf8.runes at 1. rewrite append_String. cbn [utf8.runes_from].
  rewrite <- append_String, Hdec. cbn [String.length Nat.sub].
  rewrite Nat.sub_0_r, runes_from_skip. reflexivity.
Qed.

(** Every rune a range loop sees is a scalar value. *)
Lemma runes_from_scalar s : forall k, Forall scalar (utf8.runes_from k s).
Proof.
  induction s as [|c s IH]; intros k; [constructor|].
  destruct k as [|k]; cbn [utf8.runes_from]; [|apply IH].
  pose proof (DecodeRuneInString_scalar (String c s)) as Hs.
  destruct (utf8.DecodeRuneInString (String c s)) as [r size].
  constructor; [exact Hs|apply IH].
Qed.

Lemma runes_scalar s : Forall scalar (utf8.runes s).
Proof. apply runes_from_scalar. Qed.

(** [strings.Map] with a mapping that keeps scalar values scalar: the
    runes of the result are the images of the runes of the argument. *)
Lemma runes_strings_Map (mapping : Z -> Z) (s : string) :
  (forall r, scalar r -> scalar (mapping r)) ->
  utf8.runes (strings_Map mapping s) = map mapping (utf8.runes s).
Proof.
  intros Hmap. unfold strings_Map.
  pose proof (runes_scalar s) as Hs.
  induction (utf8.runes s) as [|r l IH]; [reflexivity|].
  inversion Hs as [|? ? Hr Hl]; subst.
  cbn [fold_right map].
  destruct (Hmap r Hr) as [[Hpos _] _].
  destruct (Z.ltb_spec (mapping r) 0); [lia|].
  rewrite runes_EncodeRune by (apply Hmap, Hr).
  rewrite IH by exact Hl. reflexivity.
Qed.

(** ** [SanitizeString] *)

Example SanitizeString_ascii :
  SanitizeString Demo.env "/avatars/42/a_b.png?size=64#x" =
  "_avatars_42_a_b.png_size_64#x".
Proof. reflexivity. Qed.

(** A character of several bytes that is not kept becomes the one byte
    of '_': the euro sign (three bytes) and a byte that is no UTF-8 at
    all. *)
Example SanitizeString_euro :
  SanitizeString Demo.env (utf8.EncodeRune 8364) = "_" /\
  String.length (utf8.EncodeRune 8364) = 3%nat /\
  SanitizeString Demo.env (String (utf8.chr 255) "a") = "_a".
Proof. repeat split. Qed.

Lemma sanitize_rune_scalar E r : scalar r -> scalar (sanitize_rune E r).
Proof.
  intros Hr. unfold sanitize_rune.
  destruct (IsLetter E r || IsDigit E r || (r =? utf8.val "#")
            || (r =? utf8.val ".")); [exact Hr|].
  unfold scalar, utf8.MaxRune, utf8.surrogateMin, utf8.surrogateMax.
  change (utf8.val "_") with 95. lia.
Qed.

Lemma sanitize_rune_sanitized E r : sanitized E (sanitize_rune E r).
Proof.
  unfold sanitize_rune, sanitized.
  destruct (IsLetter E r) eqn:Hl; [auto|].
  destruct (IsDigit E r) eqn:Hd; [auto|].
  destruct (Z.eqb_spec r (utf8.val "#")); [auto|].
  destruct (Z.eqb_spec r (utf8.val ".")); cbn [orb]; auto 6.
Qed.

(** C7: every character of [SanitizeString str] is a letter, a digit,
    '#', '.' or '_', and the output has as many characters as the input
    (characters as a range loop and [utf8.RuneCountInString] count them:
    a byte that is not UTF-8 is one character). *)
Theorem SanitizeString_sanitizes (E : Env) (str : string) :
  Forall (sanitized E) (utf8.runes (SanitizeString E str)) /\
  utf8.RuneCountInString (SanitizeString E str) = utf8.RuneCountInString str.
Proof.
  unfold utf8.RuneCountInString, SanitizeString.
  rewrite runes_strings_Map by apply sanitize_rune_scalar.
  split; [|apply length_map].
  induction (utf8.runes str) as [|r l IH]; constructor;
    [apply sanitize_rune_sanitized|exact IH].
Qed.

(** ** The start-up sweep *)

(** One turn of the loop of [cleanUpCache]. *)
Abbreviation sweep_step :=
  (fun (t : TempRoot) (d : string) =>
     if HasPrefix d (CachePrefix ++ "-") && negb (String.eqb d DirName)
     then RemoveAll d t else t).

Lemma sweep_gone (dirs : list string) :
  forall (t : TempRoot) (d : string),
    entries t !! d = None -> entries (foldl sweep_step t dirs) !! d = None.
Proof.
  induction dirs as [|x dirs IH]; intros t d Hd; [exact Hd|].
  cbn [foldl]. apply IH.
  destruct (HasPrefix x (CachePrefix ++ "-") && negb (String.eqb x DirName));
    [|exact Hd].
  cbn [RemoveAll entries].
  destruct (decide (x = d)) as [->|Hne];
    [apply lookup_delete_eq|rewrite lookup_delete_ne by exact Hne; exact Hd].
Qed.

Lemma sweep_removes (dirs : list string) :
  forall (t : TempRoot) (d : string),
    In d dirs ->
    HasPrefix d (CachePrefix ++ "-") && negb (String.eqb d DirName) = true ->
    entries (foldl sweep_step t dirs) !! d = None.
Proof.
  induction dirs as [|x dirs IH]; intros t d Hin Hsel; [destruct Hin|].
  cbn [foldl]. destruct Hin as [->|Hin]; [|apply IH; assumption].
  rewrite Hsel. apply sweep_gone. cbn [RemoveAll entries].
  apply lookup_delete_eq.
Qed.

Lemma sweep_keeps (dirs : list string) :
  forall (t : TempRoot) (d : string),
    HasPrefix d (CachePrefix ++ "-") && negb (String.eqb d DirName) = false ->
    entries (foldl sweep_step t dirs) !! d = entries t !! d.
Proof.
  induction dirs as [|x dirs IH]; intros t d Hsel; [reflexivity|].
  cbn [foldl]. rewrite IH by exact Hsel.
  destruct (HasPrefix x (CachePrefix ++ "-") && negb (String.eqb x DirName))
    eqn:Hx; [|reflexivity].
  cbn [RemoveAll entries]. apply lookup_delete_ne. congruence.
Qed.

(** The names [Readdirnames] lists are the entries of the directory. *)
Lemma Readdirnames_entries (t : TempRoot) (dirs : list string) (d : string) :
  Readdirnames t = Some dirs -> (In d dirs <-> is_Some (entries t !! d)).
Proof.
  unfold Readdirnames. destruct (listable t); [|discriminate].
  intros [= <-]. rewrite <- list_elem_of_In, list_elem_of_fmap. split.
  - intros ([k v] & -> & Hin). apply elem_of_map_to_list in Hin.
    cbn [fst]. eauto.
  - intros [v Hv]. exists (d, v). split; [reflexivity|].
    apply elem_of_map_to_list, Hv.
Qed.

Lemma stale_name (hash : string) :
  hash <> CacheHash ->
  HasPrefix (CachePrefix ++ "-" ++ hash) (CachePrefix ++ "-")
  && negb (String.eqb (CachePrefix ++ "-" ++ hash) DirName) = true.
Proof.
  intros Hne. apply andb_true_iff. split; [reflexivity|].
  apply negb_true_iff, String.eqb_neq. intros Heq. apply Hne.
  unfold DirName, CachePrefix in Heq. unfold CachePrefix in *.
  repeat (rewrite append_String in Heq || rewrite append_Empty in Heq).
  congruence.
Qed.

(** C8: when the temp root can be listed, the sweep removes an entry,
    with all it contains, exactly when its name starts with the prefix
    followed by '-' and is not the name of the current cache directory;
    every other entry is left as it was.  In particular the cache
    directory of a previous version hash goes and the current one
    stays. *)
Theorem cleanUpCache_sweeps (t : TempRoot) :
  listable t = true ->
  (forall d, is_Some (entries t !! d) ->
     (entries (cleanUpCache t) !! d = None <->
      HasPrefix d (CachePrefix ++ "-") = true /\ d <> DirName) /\
     (entries (cleanUpCache t) !! d = None \/
      entries (cleanUpCache t) !! d = entries t !! d)) /\
  (forall hash, hash <> CacheHash ->
     entries (cleanUpCache t) !! (CachePrefix ++ "-" ++ hash) = None) /\
  entries (cleanUpCache t) !! DirName = entries t !! DirName.
Proof.
  intros Hlist. unfold cleanUpCache.
  destruct (Readdirnames t) as [dirs|] eqn:Hdirs;
    [|unfold Readdirnames in Hdirs; rewrite Hlist in Hdirs; discriminate].
  split; [|split].
  - intros d Hd.
    destruct (HasPrefix d (CachePrefix ++ "-") && negb (String.eqb d DirName))
      eqn:Hsel.
    + assert (Hgone : entries (foldl sweep_step t dirs) !! d = None).
      { apply sweep_removes; [|exact Hsel].
        apply (Readdirnames_entries t dirs d Hdirs), Hd. }
      split; [|left; exact Hgone].
      split; [intros _|intros _; exact Hgone].
      apply andb_true_iff in Hsel. destruct Hsel as [Hp Hn].
      split; [exact Hp|]. apply String.eqb_neq, negb_true_iff, Hn.
    + rewrite sweep_keeps by exact Hsel.
      split; [|right; reflexivity]. split.
      * intros Hnone. rewrite Hnone in Hd. destruct Hd as [? ?]. discriminate.
      * intros [Hp Hn]. apply String.eqb_neq in Hn.
        rewrite Hp, Hn in Hsel. discriminate.
  - intros hash Hne.
    destruct (entries t !! (CachePrefix ++ "-" ++ hash)) as [n|] eqn:Hent.
    + apply sweep_removes; [|apply stale_name, Hne].
      apply (Readdirnames_entries t dirs _ Hdirs). eauto.
    + apply sweep_gone, Hent.
  - apply sweep_keeps. rewrite String.eqb_refl. apply andb_false_r.
Qed.

Lemma cleanUpCache_sweeps_witness :
  (forall d, is_Some (entries Demo.tmp !! d) ->
     (entries (cleanUpCache Demo.tmp) !! d = None <->
      HasPrefix d (CachePrefix ++ "-") = true /\ d <> DirName) /\
     (entries (cleanUpCache Demo.tmp) !! d = None \/
      entries (cleanUpCache Demo.tmp) !! d = entries Demo.tmp !! d)) /\
  (forall hash, hash <> CacheHash ->
     entries (cleanUpCache Demo.tmp) !! (CachePrefix ++ "-" ++ hash) = None) /\
  entries (cleanUpCache Demo.tmp) !! DirName = entries Demo.tmp !! DirName.
Proof. apply (cleanUpCache_sweeps Demo.tmp). reflexivity. Defined.

Example cleanUpCache_demo :
  entries (cleanUpCache Demo.tmp) !! "gtkcord3-hackadoll2" = None /\
  entries (cleanUpCache Demo.tmp) !! "gtkcord3-hackadoll3" = Some (Dir []) /\
  entries (cleanUpCache Demo.tmp) !! "gtkcord3" = Some (Dir []) /\
  entries (cleanUpCache Demo.tmp) !! "notes.txt" = Some (File "x").
Proof. vm_compute. repeat split. Qed.

(** A temp root that cannot be listed is left alone. *)
Lemma cleanUpCache_unlistable (t : TempRoot) :
  listable t = false -> cleanUpCache t = t.
Proof.
  intros H. unfold cleanUpCache, Readdirnames. rewrite H. reflexivity.
Qed.

(** ** The fetch: [download] and [get] *)

Local Open Scope go_scope.

(** Case analysis on what a call tests. *)
Ltac case_scrutinee :=
  match goal with
  | |- context [match ?x with _ => _ end] =>
    lazymatch x with
    | context [match _ with _ => _ end] => fail
    | _ => destruct x eqn:?
    end
  end.

Ltac run_cases :=
  repeat (cbn [outcome world events bind ret emit defer panic
               app files held] in *;
          try case_scrutinee).

Lemma count_app p (l1 l2 : list Event) :
  count p (l1 ++ l2) = (count p l1 + count p l2)%nat.
Proof.
  induction l1 as [|e l1 IH]; [reflexivity|].
  cbn [app count]. rewrite IH. lia.
Qed.

(** [download] after a successful [Acquire], as one run. *)
Lemma download_acquired E ctx url pp gif w0 :
  sema_Acquire E ctx (held w0) = Acquired ->
  exists x mid,
    download E ctx url pp gif w0 =
    mkRun (Returns x) {| files := files w0; held := held w0 + 1 - 1 |}
          (EvAcquire :: mid ++ [EvRelease]) /\
    count is_Acquire mid = 0%nat /\ count is_Release mid = 0%nat /\
    count is_WriteFile mid = 0%nat.
Proof.
  intros Hacq. unfold download, bind at 1, Acquire. rewrite Hacq.
  cbn [outcome world events]. unfold defer at 1, Release.
  unfold Do, bind, defer, emit, ret.
  destruct (NewRequestWithContext E url) as [err|].
  { eexists _, []. split; [reflexivity|]. repeat split. }
  cbn [outcome world events app].
  destruct (Client_Do E ctx url) as [r|err].
  2:{ eexists _, [_]. split; [reflexivity|]. repeat split. }
  destruct ((StatusCode r <? 200) || (StatusCode r >? 299)).
  { eexists _, [_; _]. split; [reflexivity|]. repeat split. }
  destruct (0 <? length pp)%nat.
  2:{ destruct (ReadAll (Body r));
      (eexists _, [_; _]; split; [reflexivity|]; repeat split). }
  destruct gif;
    (eexists _, [_; _; _]; split; [reflexivity|]; repeat split).
Qed.

(** C6: a run of [download] that acquires a permit returns, and on every
    return path (all the ways the environment can answer) it has
    released the permit exactly once, as its last action: as many
    permits are in use after the call as before. *)
Theorem download_releases_permit (E : Env) (ctx : Ctx E) (url : string)
        (pp : list (Processor E)) (gif : bool) (w0 : World) :
  sema_Acquire E ctx (held w0) = Acquired ->
  let r := download E ctx url pp gif w0 in
  (exists x, outcome r = Returns x) /\
  count is_Acquire (events r) = 1%nat /\
  count is_Release (events r) = 1%nat /\
  last (events r) = Some EvRelease /\
  held (world r) = held w0.
Proof.
  intros Hacq r.
  destruct (download_acquired E ctx url pp gif w0 Hacq)
    as (x & mid & Hrun & Ha & Hr & _).
  subst r. rewrite Hrun. cbn [outcome world events held].
  split; [eauto|].
  cbn [count is_Acquire is_Release]. rewrite !count_app, Ha, Hr.
  repeat split; try reflexivity.
  - rewrite app_comm_cons. apply last_snoc.
  - lia.
Qed.

Lemma download_releases_permit_witness :
  let r := download Demo.env false "http://img.example/none.png"
                    ["resize"] false Demo.fresh in
  (exists x, outcome r = Returns x) /\
  count is_Acquire (events r) = 1%nat /\
  count is_Release (events r) = 1%nat /\
  last (events r) = Some EvRelease /\
  held (world r) = held Demo.fresh.
Proof.
  apply (download_releases_permit Demo.env false
           "http://img.example/none.png" ["resize"] false Demo.fresh).
  reflexivity.
Defined.

(** The four ways out of [download], on the demo server. *)
Example download_success :
  let r := download Demo.env false "http://img.example/a.png"
                    ["resize"] false Demo.fresh in
  outcome r = Returns (Ok "img:a") /\
  events r = [EvAcquire; EvGET "http://img.example/a.png"; EvProcess false;
              EvCloseBody; EvRelease].
Proof. split; reflexivity. Qed.

Example download_bad_status :
  let r := download Demo.env false "http://img.example/none.png"
                    ["resize"] false Demo.fresh in
  outcome r =
  Returns (Err (ErrBadStatus 404 (Some "http://img.example/none.png"))) /\
  events r = [EvAcquire; EvGET "http://img.example/none.png";
              EvCloseBody; EvRelease].
Proof. split; reflexivity. Qed.

Example download_transport_failure :
  let r := download Demo.env false "http://down.example/a.png"
                    ["resize"] false Demo.fresh in
  outcome r = Returns (Err (Wrap ErrTransport "Failed to GET")) /\
  events r = [EvAcquire; EvGET "http://down.example/a.png"; EvRelease].
Proof. split; reflexivity. Qed.

Example download_processing_failure :
  let r := download Demo.env false "http://img.example/page.png"
                    ["resize"] false Demo.fresh in
  outcome r = Returns (Err ErrProcessing) /\
  events r = [EvAcquire; EvGET "http://img.example/page.png";
              EvProcess false; EvCloseBody; EvRelease].
Proof. split; reflexivity. Qed.

(** No permit: [download] waits, or returns the error of the context,
    and releases nothing. *)
Lemma download_not_acquired E ctx url pp gif w0 :
  sema_Acquire E ctx (held w0) <> Acquired ->
  let r := download E ctx url pp gif w0 in
  events r = [] /\ world r = w0 /\
  (outcome r = Blocks \/
   outcome r = Returns (Err (Wrap ErrContext "Failed to acquire throttler"))).
Proof.
  intros Hacq. unfold download, bind, Acquire.
  destruct (sema_Acquire E ctx (held w0)); [congruence| |]; cbn; auto.
Qed.

(** What [download] returns once the transport has succeeded. *)
Lemma download_outcome E ctx url pp gif w0 resp :
  transport_succeeds E ctx url w0 resp ->
  outcome (download E ctx url pp gif w0) =
  Returns (if (StatusCode resp <? 200) || (StatusCode resp >? 299)
           then Err (ErrBadStatus (StatusCode resp) (Some url))
           else body_result E resp pp gif).
Proof.
  intros (Hacq & Hreq & Hdo).
  unfold download, bind at 1, Acquire. rewrite Hacq.
  cbn [outcome world events]. unfold defer at 1, Release.
  rewrite Hreq. unfold Do, bind, defer, emit, ret.
  cbn [outcome world events app]. rewrite Hdo. unfold body_result.
  destruct ((StatusCode resp <? 200) || (StatusCode resp >? 299));
    [reflexivity|].
  destruct (0 <? length pp)%nat; [destruct gif; reflexivity|].
  destruct (ReadAll (Body resp)); reflexivity.
Qed.

(** [download] never touches the files. *)
Lemma download_files E ctx url pp gif w0 :
  files (world (download E ctx url pp gif w0)) = files w0 /\
  count is_WriteFile (events (download E ctx url pp gif w0)) = 0%nat.
Proof.
  destruct (sema_Acquire E ctx (held w0)) eqn:Hacq.
  - destruct (download_acquired E ctx url pp gif w0 Hacq)
      as (x & mid & -> & _ & _ & Hw).
    cbn [world events files]. split; [reflexivity|].
    cbn [count is_WriteFile]. rewrite count_app, Hw. reflexivity.
  - destruct (download_not_acquired E ctx url pp gif w0) as (-> & -> & _);
      [congruence|split; reflexivity].
  - destruct (download_not_acquired E ctx url pp gif w0) as (-> & -> & _);
      [congruence|split; reflexivity].
Qed.

(** When [download] fails, [get] returns its error and writes nothing. *)
Lemma get_download_failed E ctx url dst pp gif w0 e :
  outcome (download E ctx url pp gif w0) = Returns (Err e) ->
  let g := get E ctx url dst pp gif w0 in
  outcome g = Returns (Some e) /\
  files (world g) = files w0 /\
  count is_WriteFile (events g) = 0%nat.
Proof.
  intros Hd. destruct (download_files E ctx url pp gif w0) as [Hf Hw].
  unfold get, bind. rewrite Hd. cbn [outcome world events ret].
  rewrite app_nil_r. auto.
Qed.

(** C4, amended: when the transport succeeds, a status outside
    [200,299] makes [download] return the bad-status error, and a status
    inside makes it return what reading or processing the body gives,
    an error exactly when that fails; and whenever [download] returns an
    error (a 404 included), [get] returns it and writes nothing to the
    disk cache. *)
Theorem download_status (E : Env) (ctx : Ctx E) (url : string)
        (pp : list (Processor E)) (gif : bool) (w0 : World)
        (resp : Response) :
  transport_succeeds E ctx url w0 resp ->
  (~ (200 <= StatusCode resp <= 299) ->
   outcome (download E ctx url pp gif w0) =
   Returns (Err (ErrBadStatus (StatusCode resp) (Some url)))) /\
  (200 <= StatusCode resp <= 299 ->
   outcome (download E ctx url pp gif w0) =
   Returns (body_result E resp pp gif)) /\
  (forall e dst,
     outcome (download E ctx url pp gif w0) = Returns (Err e) ->
     let g := get E ctx url dst pp gif w0 in
     outcome g = Returns (Some e) /\
     files (world g) = files w0 /\
     count is_WriteFile (events g) = 0%nat).
Proof.
  intros Ht. rewrite (download_outcome E ctx url pp gif w0 resp Ht).
  split; [|split].
  - intros Hbad.
    destruct (Z.ltb_spec (StatusCode resp) 200); [reflexivity|].
    destruct (Z.gtb_spec (StatusCode resp) 299); [reflexivity|lia].
  - intros Hgood.
    destruct (Z.ltb_spec (StatusCode resp) 200); [lia|].
    destruct (Z.gtb_spec (StatusCode resp) 299); [lia|reflexivity].
  - intros e dst He. apply get_download_failed.
    rewrite (download_outcome E ctx url pp gif w0 resp Ht). exact He.
Qed.

Lemma download_status_witness :
  let url := "http://img.example/none.png" in
  let resp := {| StatusCode := 404; Body := Complete "not found" |} in
  (~ (200 <= StatusCode resp <= 299) ->
   outcome (download Demo.env false url ["resize"] false Demo.fresh) =
   Returns (Err (ErrBadStatus (StatusCode resp) (Some url)))) /\
  (200 <= StatusCode resp <= 299 ->
   outcome (download Demo.env false url ["resize"] false Demo.fresh) =
   Returns (body_result Demo.env resp ["resize"] false)) /\
  (forall e dst,
     outcome (download Demo.env false url ["resize"] false Demo.fresh)
     = Returns (Err e) ->
     let g := get Demo.env false url dst ["resize"] false Demo.fresh in
     outcome g = Returns (Some e) /\
     files (world g) = files Demo.fresh /\
     count is_WriteFile (events g) = 0%nat).
Proof.
  apply (download_status Demo.env false "http://img.example/none.png"
           ["resize"] false Demo.fresh
           {| StatusCode := 404; Body := Complete "not found" |}).
  repeat split.
Defined.

(** C4 as stated fails: the page the demo server sends with status 200
    is no image, the processors fail on it, and [download] returns an
    error although the transport succeeded and the status is good. *)
Lemma download_error_with_good_status :
  ~ error_iff_bad_status Demo.env false "http://img.example/page.png"
      ["resize"] false Demo.fresh
      {| StatusCode := 200; Body := Complete "<html>" |}.
Proof.
  unfold error_iff_bad_status. intros H.
  assert (Ht : transport_succeeds Demo.env false "http://img.example/page.png"
                 Demo.fresh {| StatusCode := 200; Body := Complete "<html>" |})
    by (repeat split).
  destruct (H Ht) as [Hfail _].
  apply Hfail; [|cbn; lia].
  exists ErrProcessing. reflexivity.
Qed.

(** ** Runs *)

Lemma Forall_bind {A B} (P : Event -> Prop) (m : M A) (f : A -> M B) w :
  Forall P (events (m w)) ->
  (forall a, outcome (m w) = Returns a ->
             Forall P (events (f a (world (m w))))) ->
  Forall P (events (bind m f w)).
Proof.
  intros Hm Hf. unfold bind.
  destruct (outcome (m w)) as [a| |]; cbn [events]; [|exact Hm..].
  apply Forall_app. split; [exact Hm|apply Hf; reflexivity].
Qed.

Lemma Forall_defer {A} (P : Event -> Prop) (cleanup : M unit) (body : M A) w :
  Forall P (events (body w)) ->
  (forall w', Forall P (events (cleanup w'))) ->
  Forall P (events (defer cleanup body w)).
Proof.
  intros Hb Hc. unfold defer.
  destruct (outcome (body w)); cbn [events];
    try (apply Forall_app; split; [exact Hb|apply Hc]); exact Hb.
Qed.

(** *** The cache key *)

(** [TransformURL] returns [CacheKey] and leaves the world as it is; all
    it does is make the directory of the host. *)
Lemma TransformURL_run E s w :
  TransformURL E s w =
  mkRun (Returns (CacheKey E s)) w
        (match url_Parse E s with
         | None => []
         | Some u => [EvMkdirAll (Join E (Path E) (Hostname u))]
         end).
Proof.
  unfold CacheKey, TransformURL.
  destruct (url_Parse E s) as [u|]; reflexivity.
Qed.

Lemma TransformURL_respects E s w url dst gif :
  Forall (respects url dst gif) (events (TransformURL E s w)).
Proof.
  rewrite TransformURL_run. cbn [events].
  destruct (url_Parse E s); repeat constructor.
Qed.

(** *** Decoding *)

(** [setImageStream] does not look at the world. *)
Lemma setImageStream_run E r gif w h stream :
  exists o evs,
    (evs = [] \/ evs = [EvShow gif]) /\
    forall w0, setImageStream E r gif w h stream w0 = mkRun o w0 evs.
Proof.
  unfold setImageStream, negotiate, bind, defer, ret, panic, emit.
  destruct (PixbufLoaderNew E); cbn [negb];
    [|eexists _, []; split; [left; reflexivity|reflexivity]].
  destruct ((w >? 0) && (h >? 0)).
  - destruct (size_prepared E (data_of r)) as [[imgW imgH]|].
    + destruct (MaxSize imgW imgH w h) as [[w' h']|].
      * destruct (negb (w' =? imgW) || negb (h' =? imgH));
          cbn [outcome world events];
          match goal with
          | |- context [area_prepared E ?b ?s] =>
            destruct (area_prepared E b s)
          end;
          destruct (Copy E r _);
          cbn [outcome world events app];
          eexists _, _; (split; [|reflexivity]); auto.
      * eexists _, []. split; [left; reflexivity|reflexivity].
    + cbn [outcome world events].
      destruct (area_prepared E (data_of r) None);
        destruct (Copy E r None);
        cbn [outcome world events app];
        eexists _, _; (split; [|reflexivity]); auto.
  - cbn [outcome world events].
    destruct (area_prepared E (data_of r) None);
      destruct (Copy E r None);
      cbn [outcome world events app];
      eexists _, _; (split; [|reflexivity]); auto.
Qed.

(** [setImageFromFile] looks at the file at [path], and at nothing else. *)
Lemma setImageFromFile_run E path gif w h (b : option string) :
  exists o evs,
    (evs = [] \/ evs = [EvShow gif]) /\
    forall w0, files w0 !! path = b ->
               setImageFromFile E path gif w h w0 =
               mkRun o w0 (EvOpen path :: evs).
Proof.
  unfold setImageFromFile, bind, Open.
  destruct b as [b|].
  - destruct (setImageStream_run E (Complete b) gif w h false)
      as (o & evs & Hevs & Hrun).
    exists o, evs. split; [exact Hevs|]. intros w0 ->.
    cbn [outcome world events]. rewrite Hrun. reflexivity.
  - exists (Returns (Some (Wrap ErrOpen "Failed to open file"))), [].
    split; [left; reflexivity|]. intros w0 ->. reflexivity.
Qed.

Lemma setImageFromFile_world E path gif w h w0 :
  world (setImageFromFile E path gif w h w0) = w0.
Proof.
  destruct (setImageFromFile_run E path gif w h (files w0 !! path))
    as (o & evs & _ & Hrun).
  rewrite Hrun; reflexivity.
Qed.

Lemma setImageFromFile_respects E path gif w h w0 url :
  Forall (respects url path gif) (events (setImageFromFile E path gif w h w0)).
Proof.
  destruct (setImageFromFile_run E path gif w h (files w0 !! path))
    as (o & evs & Hevs & Hrun).
  rewrite Hrun by reflexivity. cbn [events].
  destruct Hevs as [-> | ->]; repeat constructor.
Qed.

(** The outcome of [setImageFromFile] depends on the world through the
    file at [path] only. *)
Lemma setImageFromFile_ext E path gif w h w0 w1 :
  files w1 !! path = files w0 !! path ->
  outcome (setImageFromFile E path gif w h w1) =
  outcome (setImageFromFile E path gif w h w0) /\
  events (setImageFromFile E path gif w h w1) =
  events (setImageFromFile E path gif w h w0).
Proof.
  intros Heq.
  destruct (setImageFromFile_run E path gif w h (files w0 !! path))
    as (o & evs & _ & Hrun).
  rewrite (Hrun w0), (Hrun w1) by auto. split; reflexivity.
Qed.

(** *** Fetching *)

Lemma download_respects E ctx url pp gif w0 dst :
  Forall (respects url dst gif) (events (download E ctx url pp gif w0)).
Proof.
  unfold download. apply Forall_bind.
  { unfold Acquire. destruct (sema_Acquire E ctx (held w0));
      cbn [events]; repeat constructor. }
  intros [err|] _; [constructor|].
  apply Forall_defer; [|intros w'; repeat constructor].
  destruct (NewRequestWithContext E url); [constructor|].
  apply Forall_bind; [repeat constructor|].
  intros [r|err] _; [|constructor].
  apply Forall_defer; [|intros w'; repeat constructor].
  destruct ((StatusCode r <? 200) || (StatusCode r >? 299)); [constructor|].
  destruct (0 <? length pp)%nat.
  - apply Forall_bind; [repeat constructor|].
    intros _ _. destruct gif; constructor.
  - destruct (ReadAll (Body r)); constructor.
Qed.

Lemma get_respects E ctx url dst pp gif w0 :
  Forall (respects url dst gif) (events (get E ctx url dst pp gif w0)).
Proof.
  unfold get. apply Forall_bind; [apply download_respects|].
  intros [b|err] _; [|constructor].
  apply Forall_bind.
  - unfold WriteFile. destruct (os_WriteFile E dst b);
      cbn [events]; repeat constructor.
  - intros [err|] _; constructor.
Qed.

(** A [get] that returns no error has written the bytes it fetched to
    [dst], and nothing else. *)
Lemma get_ok E ctx url dst pp gif w0 :
  outcome (get E ctx url dst pp gif w0) = Returns None ->
  exists b,
    outcome (download E ctx url pp gif w0) = Returns (Ok b) /\
    files (world (get E ctx url dst pp gif w0)) = <[dst := b]> (files w0) /\
    events (get E ctx url dst pp gif w0) =
    (events (download E ctx url pp gif w0) ++ [EvWriteFile dst b])%list.
Proof.
  destruct (download_files E ctx url pp gif w0) as [Hf _].
  unfold get, bind.
  destruct (download E ctx url pp gif w0) as [o w1 evs].
  cbn [outcome world events] in *.
  destruct o as [[b|err]| |]; cbn [outcome world events ret];
    try discriminate.
  unfold WriteFile.
  destruct (os_WriteFile E dst b); cbn [outcome world events ret];
    try discriminate.
  intros _. exists b. cbn [files app]. rewrite Hf. auto.
Qed.

(** *** Binding *)

Lemma SetImageScaledContext_eq E ctx url w h pp :
  SetImageScaledContext E ctx url w h pp =
  bind_from E ctx (fetched_url url) false w h pp.
Proof.
  unfold SetImageScaledContext, fetched_url, bind_from.
  destruct (Contains url "gif"); reflexivity.
Qed.

Lemma bind_from_respects E ctx url gif w h pp w0 :
  Forall (respects url (CacheKey E url) gif)
         (events (bind_from E ctx url gif w h pp w0)).
Proof.
  unfold bind_from. apply Forall_bind; [apply TransformURL_respects|].
  intros dst Hdst. rewrite TransformURL_run in Hdst.
  injection Hdst as <-.
  apply Forall_bind; [apply setImageFromFile_respects|].
  intros [err|] _; [|constructor].
  apply Forall_bind; [apply get_respects|].
  intros [err'|] _; [constructor|].
  apply Forall_bind; [apply setImageFromFile_respects|].
  intros [err'|] _; [|constructor].
  apply Forall_bind; [repeat constructor|].
  intros _ _. constructor.
Qed.

Lemma bind_returns {A B} (m : M A) (f : A -> M B) w a :
  outcome (m w) = Returns a ->
  bind m f w =
  mkRun (outcome (f a (world (m w)))) (world (f a (world (m w))))
        (events (m w) ++ events (f a (world (m w))))%list.
Proof. intros H. unfold bind. rewrite H. reflexivity. Qed.

Lemma bind_blocks {A B} (m : M A) (f : A -> M B) w :
  outcome (m w) = Blocks ->
  bind m f w = mkRun Blocks (world (m w)) (events (m w)).
Proof. intros H. unfold bind. rewrite H. reflexivity. Qed.

Lemma bind_panics {A B} (m : M A) (f : A -> M B) w :
  outcome (m w) = Panics ->
  bind m f w = mkRun Panics (world (m w)) (events (m w)).
Proof. intros H. unfold bind. rewrite H. reflexivity. Qed.

(** A bind whose first part does not return does not return. *)
Ltac stuck H :=
  first [rewrite (bind_blocks _ _ _ H) | rewrite (bind_panics _ _ _ H)];
  discriminate.

Lemma TransformURL_outcome E s w :
  outcome (TransformURL E s w) = Returns (CacheKey E s).
Proof. rewrite TransformURL_run. reflexivity. Qed.

Lemma TransformURL_world E s w : world (TransformURL E s w) = w.
Proof. rewrite TransformURL_run. reflexivity. Qed.

(** A hit: the file decodes, and the bind is over. *)
Lemma bind_from_hit E ctx url gif w h pp w0 :
  outcome (setImageFromFile E (CacheKey E url) gif w h w0) = Returns None ->
  bind_from E ctx url gif w h pp w0 =
  mkRun (Returns None) w0
        (events (TransformURL E url w0) ++
         events (setImageFromFile E (CacheKey E url) gif w h w0))%list.
Proof.
  intros Hhit. unfold bind_from.
  rewrite (bind_returns _ _ _ _ (TransformURL_outcome E url w0)).
  rewrite TransformURL_world.
  rewrite (bind_returns _ _ _ _ Hhit), setImageFromFile_world.
  cbn [outcome world events ret]. rewrite app_nil_r. reflexivity.
Qed.

(** After a bind that returned no error the file decodes. *)
Lemma bind_from_cached E ctx url gif w h pp w0 :
  outcome (bind_from E ctx url gif w h pp w0) = Returns None ->
  outcome (setImageFromFile E (CacheKey E url) gif w h
             (world (bind_from E ctx url gif w h pp w0))) = Returns None.
Proof.
  unfold bind_from.
  rewrite (bind_returns _ _ _ _ (TransformURL_outcome E url w0)).
  rewrite TransformURL_world. cbn [outcome world].
  destruct (outcome (setImageFromFile E (CacheKey E url) gif w h w0))
    as [[err|]| |] eqn:H1;
    [|rewrite (bind_returns _ _ _ _ H1), setImageFromFile_world;
      cbn [outcome world ret]; intros _; exact H1
     |stuck H1..].
  rewrite (bind_returns _ _ _ _ H1), setImageFromFile_world.
  cbn [outcome world].
  destruct (outcome (get E ctx url (CacheKey E url) pp gif w0))
    as [[err'|]| |] eqn:H2;
    [rewrite (bind_returns _ _ _ _ H2); discriminate
    | |stuck H2..].
  rewrite (bind_returns _ _ _ _ H2). cbn [outcome world].
  destruct (outcome (setImageFromFile E (CacheKey E url) gif w h
                       (world (get E ctx url (CacheKey E url) pp gif w0))))
    as [[err'|]| |] eqn:H3;
    [rewrite (bind_returns _ _ _ _ H3); discriminate
    |rewrite (bind_returns _ _ _ _ H3), setImageFromFile_world;
     cbn [outcome world ret]; intros _; exact H3
    |stuck H3..].
Qed.

Lemma from_disk_app evs1 evs2 :
  from_disk evs1 -> from_disk evs2 -> from_disk (evs1 ++ evs2)%list.
Proof.
  unfold from_disk. intros (H1 & H2 & H3) (H4 & H5 & H6).
  rewrite !count_app. lia.
Qed.

Lemma TransformURL_from_disk E s w : from_disk (events (TransformURL E s w)).
Proof.
  rewrite TransformURL_run. cbn [events].
  destruct (url_Parse E s); repeat split.
Qed.

Lemma setImageFromFile_from_disk E path gif w h w0 :
  from_disk (events (setImageFromFile E path gif w h w0)).
Proof.
  destruct (setImageFromFile_run E path gif w h (files w0 !! path))
    as (o & evs & Hevs & Hrun).
  rewrite Hrun by reflexivity. cbn [events].
  destruct Hevs as [-> | ->]; repeat split.
Qed.

(** [getPixbufFromFile] opens the file at [path] and leaves the world as
    it is. *)
Lemma getPixbufFromFile_shape E path w h w0 :
  world (getPixbufFromFile E path w h w0) = w0 /\
  events (getPixbufFromFile E path w h w0) = [EvOpen path].
Proof.
  unfold getPixbufFromFile, bind, Open, negotiate, ret, panic.
  destruct (files w0 !! path) as [b|]; cbn [outcome world events];
    [|split; reflexivity].
  repeat (cbn [outcome world events app negb]; try case_scrutinee);
    split; reflexivity.
Qed.

Lemma getPixbufFromFile_world E path w h w0 :
  world (getPixbufFromFile E path w h w0) = w0.
Proof. apply getPixbufFromFile_shape. Qed.

Lemma getPixbufFromFile_events E path w h w0 :
  events (getPixbufFromFile E path w h w0) = [EvOpen path].
Proof. apply getPixbufFromFile_shape. Qed.

Lemma GetPixbufScaled_respects E url w h pp w0 :
  Forall (respects url (CacheKey E url) false)
         (events (GetPixbufScaled E url w h pp w0)).
Proof.
  unfold GetPixbufScaled. apply Forall_bind; [apply TransformURL_respects|].
  intros dst Hdst. rewrite TransformURL_outcome in Hdst.
  injection Hdst as <-.
  apply Forall_bind;
    [rewrite getPixbufFromFile_events; repeat constructor|].
  intros [p|err] _; [constructor|].
  apply Forall_bind; [apply get_respects|].
  intros [err'|] _; [constructor|].
  apply Forall_bind;
    [rewrite getPixbufFromFile_events; repeat constructor|].
  intros [p|err'] _; constructor.
Qed.

Lemma GetPixbufScaled_hit E url w h pp w0 p :
  outcome (getPixbufFromFile E (CacheKey E url) w h w0) = Returns (Ok p) ->
  GetPixbufScaled E url w h pp w0 =
  mkRun (Returns (Ok p)) w0
        (events (TransformURL E url w0) ++ [EvOpen (CacheKey E url)])%list.
Proof.
  intros Hhit. unfold GetPixbufScaled.
  rewrite (bind_returns _ _ _ _ (TransformURL_outcome E url w0)).
  rewrite TransformURL_world.
  rewrite (bind_returns _ _ _ _ Hhit), getPixbufFromFile_world,
    getPixbufFromFile_events.
  cbn [outcome world events ret]. rewrite app_nil_r. reflexivity.
Qed.

Lemma GetPixbufScaled_cached E url w h pp w0 p :
  outcome (GetPixbufScaled E url w h pp w0) = Returns (Ok p) ->
  outcome (getPixbufFromFile E (CacheKey E url) w h
             (world (GetPixbufScaled E url w h pp w0))) = Returns (Ok p).
Proof.
  unfold GetPixbufScaled.
  rewrite (bind_returns _ _ _ _ (TransformURL_outcome E url w0)).
  rewrite TransformURL_world. cbn [outcome world].
  destruct (outcome (getPixbufFromFile E (CacheKey E url) w h w0))
    as [[p0|err]| |] eqn:H1;
    [rewrite (bind_returns _ _ _ _ H1), getPixbufFromFile_world;
     cbn [outcome world ret]; intros [= <-]; exact H1
    | |stuck H1..].
  rewrite (bind_returns _ _ _ _ H1), getPixbufFromFile_world.
  cbn [outcome world].
  destruct (outcome (get E (Background E) url (CacheKey E url) pp false w0))
    as [[err'|]| |] eqn:H2;
    [rewrite (bind_returns _ _ _ _ H2); discriminate
    | |stuck H2..].
  rewrite (bind_returns _ _ _ _ H2). cbn [outcome world].
  destruct (outcome (getPixbufFromFile E (CacheKey E url) w h
              (world (get E (Background E) url (CacheKey E url) pp false w0))))
    as [[p1|err']| |] eqn:H3;
    [rewrite (bind_returns _ _ _ _ H3), getPixbufFromFile_world;
     cbn [outcome world ret]; intros [= <-]; exact H3
    |rewrite (bind_returns _ _ _ _ H3); discriminate
    |stuck H3..].
Qed.

(** ** The request a bind goes on with *)

Example fetched_url_gif :
  fetched_url "http://img.example/a.gif" = "http://img.example/a.png" /\
  fetched_url "http://img.example/a.png" = "http://img.example/a.png" /\
  fetched_url "http://gifs.example/gifif" = "http://pngs.example/pngif".
Proof. repeat split. Qed.



(** ** The cache key *)

Lemma append_empty_r (s : string) : s ++ EmptyString = s.
Proof. induction s as [|c s IH]; [reflexivity|]. rewrite append_String, IH. reflexivity. Qed.

Lemma respects_touches_only url dst gif evs :
  Forall (respects url dst gif) evs -> Forall (touches_only dst) evs.
Proof.
  intros H. induction H as [|e evs He _ IH]; constructor; [|exact IH].
  destruct e; cbn in *; auto.
Qed.

(** C5: the cache key is a function of the URL string alone.
    [TransformURL] returns the same path in every world and changes
    nothing; the path carries no size suffix; and whatever the bounding
    box and the processors, a bind opens, writes and removes no file but
    the one at the key of its URL. *)
Theorem CacheKey_of_URL_alone (E : Env) (s : string) :
  (forall w0, outcome (TransformURL E s w0) = Returns (CacheKey E s) /\
              world (TransformURL E s w0) = w0) /\
  CacheKey E s =
    match url_Parse E s with
    | None => Join E (Path E) (SanitizeString E s)
    | Some u =>
      Join E (Join E (Path E) (Hostname u))
           (SanitizeString E (EscapedPath u ++ "?" ++ RawQuery u))
    end /\
  (forall w h pp w0,
     Forall (touches_only (CacheKey E s))
            (events (GetPixbufScaled E s w h pp w0))) /\
  (forall ctx w h pp w0,
     Forall (touches_only (CacheKey E (fetched_url s)))
            (events (SetImageScaledContext E ctx s w h pp w0))).
Proof.
  split; [|split; [|split]].
  - intros w0. split; [apply TransformURL_outcome|apply TransformURL_world].
  - unfold CacheKey, TransformURL.
    destruct (url_Parse E s) as [u|]; cbn [outcome bind emit ret];
      rewrite append_empty_r; reflexivity.
  - intros w h pp w0.
    apply (respects_touches_only s _ false), GetPixbufScaled_respects.
  - intros ctx w h pp w0. rewrite SetImageScaledContext_eq.
    apply (respects_touches_only (fetched_url s) _ false),
      bind_from_respects.
Qed.

Example CacheKey_demo :
  CacheKey Demo.env "http://img.example/avatars/1.png?size=64" =
  "/tmp/gtkcord3-hackadoll3/img.example/_avatars_1.png_size_64".
Proof. reflexivity. Qed.

(** ** Cache hits *)

(** What [getPixbufFromFile] decodes, [setImageFromFile] decodes: it
    asks the loader for less. *)
Lemma getPixbufFromFile_setImageFromFile E path gif w h w0 p :
  outcome (getPixbufFromFile E path w h w0) = Returns (Ok p) ->
  outcome (setImageFromFile E path gif w h w0) = Returns None.
Proof.
  unfold getPixbufFromFile, setImageFromFile, setImageStream, bind, defer,
    Open, negotiate, ret, panic, emit.
  destruct (files w0 !! path) as [b|]; cbn [outcome world events];
    [|discriminate].
  cbn [data_of].
  repeat (cbn [outcome world events app negb data_of]; try case_scrutinee);
    try discriminate; reflexivity.
Qed.

(** C3, amended: when the cache entry a bind looks up decodes from disk
    under the bounding box of the bind (the entry at the key of the URL
    for [GetPixbufScaled], of the URL with "gif" replaced by "png" for
    [SetImageScaledContext]), the bind returns without an error, changes
    nothing, and is served from the disk store alone: no GET, no permit,
    no write.  In particular a bind that follows a successful bind of
    the same URL with the same bounding box through the same function is
    served this way, and so is a [SetImageScaledContext] that follows a
    successful [GetPixbufScaled] when the URL holds no "gif". *)
Theorem cache_hit_served_from_disk (E : Env) (url : string) (w h : Z) :
  (forall ctx pp w0,
     outcome (setImageFromFile E (CacheKey E (fetched_url url)) false w h w0)
     = Returns None ->
     let r := SetImageScaledContext E ctx url w h pp w0 in
     outcome r = Returns None /\ world r = w0 /\ from_disk (events r)) /\
  (forall pp w0 p,
     outcome (getPixbufFromFile E (CacheKey E url) w h w0) = Returns (Ok p) ->
     let r := GetPixbufScaled E url w h pp w0 in
     outcome r = Returns (Ok p) /\ world r = w0 /\ from_disk (events r)) /\
  (forall ctx pp ctx' pp' w0,
     let first := SetImageScaledContext E ctx url w h pp w0 in
     outcome first = Returns None ->
     let r := SetImageScaledContext E ctx' url w h pp' (world first) in
     outcome r = Returns None /\ world r = world first /\
     from_disk (events r)) /\
  (forall pp pp' w0 p,
     let first := GetPixbufScaled E url w h pp w0 in
     outcome first = Returns (Ok p) ->
     let r := GetPixbufScaled E url w h pp' (world first) in
     outcome r = Returns (Ok p) /\ world r = world first /\
     from_disk (events r)) /\
  (forall pp ctx' pp' w0 p,
     Contains url "gif" = false ->
     let first := GetPixbufScaled E url w h pp w0 in
     outcome first = Returns (Ok p) ->
     let r := SetImageScaledContext E ctx' url w h pp' (world first) in
     outcome r = Returns None /\ world r = world first /\
     from_disk (events r)).
Proof.
  assert (Hset : forall ctx pp w0,
             outcome (setImageFromFile E (CacheKey E (fetched_url url))
                        false w h w0) = Returns None ->
             let r := SetImageScaledContext E ctx url w h pp w0 in
             outcome r = Returns None /\ world r = w0 /\
             from_disk (events r)).
  { intros ctx pp w0 Hhit r. subst r.
    rewrite SetImageScaledContext_eq, bind_from_hit by exact Hhit.
    cbn [outcome world events].
    split; [reflexivity|]. split; [reflexivity|].
    apply from_disk_app;
      [apply TransformURL_from_disk|apply setImageFromFile_from_disk]. }
  assert (Hget : forall pp w0 p,
             outcome (getPixbufFromFile E (CacheKey E url) w h w0)
             = Returns (Ok p) ->
             let r := GetPixbufScaled E url w h pp w0 in
             outcome r = Returns (Ok p) /\ world r = w0 /\
             from_disk (events r)).
  { intros pp w0 p Hhit r. subst r.
    rewrite (GetPixbufScaled_hit E url w h pp w0 p Hhit).
    cbn [outcome world events].
    split; [reflexivity|]. split; [reflexivity|].
    apply from_disk_app; [apply TransformURL_from_disk|repeat split]. }
  split; [exact Hset|]. split; [exact Hget|]. split; [|split].
  - intros ctx pp ctx' pp' w0 first Hfirst. apply (Hset ctx' pp' (world first)).
    subst first. rewrite SetImageScaledContext_eq in *.
    apply bind_from_cached, Hfirst.
  - intros pp pp' w0 p first Hfirst. apply (Hget pp' (world first) p).
    subst first. apply GetPixbufScaled_cached, Hfirst.
  - intros pp ctx' pp' w0 p Hgif first Hfirst.
    apply (Hset ctx' pp' (world first)).
    unfold fetched_url. rewrite Hgif.
    apply (getPixbufFromFile_setImageFromFile E _ false w h _ p).
    subst first. apply GetPixbufScaled_cached, Hfirst.
Qed.

Lemma cache_hit_served_from_disk_witness :
  let url := "http://img.example/a.png" in
  let first := SetImageScaledContext Demo.env false url 100 100
                                     ["resize"] Demo.fresh in
  let r := SetImageScaledContext Demo.env false url 100 100
                                 ["crop"] (world first) in
  let p := GetPixbufScaled Demo.env url 100 100 [] (world first) in
  outcome first = Returns None /\
  (outcome r = Returns None /\ world r = world first /\
   from_disk (events r)) /\
  (outcome p = Returns (Ok "img:a") /\ world p = world first /\
   from_disk (events p)).
Proof.
  cbv zeta.
  destruct (cache_hit_served_from_disk Demo.env "http://img.example/a.png"
              100 100) as (_ & Hget & Hnext & _).
  split; [vm_compute; reflexivity|]. split.
  - apply (Hnext false ["resize"] false ["crop"] Demo.fresh).
    vm_compute. reflexivity.
  - apply (Hget [] _ "img:a"). vm_compute. reflexivity.
Defined.

(** Scenario A: no cache, a 100 by 100 box: one GET and one write; the
    same request again: neither. *)
Example scenario_A :
  let url := "http://img.example/a.png" in
  let first := SetImageScaledContext Demo.env false url 100 100
                                     ["resize"] Demo.fresh in
  let again := SetImageScaledContext Demo.env false url 100 100
                                     ["resize"] (world first) in
  count is_GET (events first) = 1%nat /\
  count is_WriteFile (events first) = 1%nat /\
  events again =
    [EvMkdirAll "/tmp/gtkcord3-hackadoll3/img.example";
     EvOpen "/tmp/gtkcord3-hackadoll3/img.example/_a.png_";
     EvShow false].
Proof. vm_compute. repeat split. Qed.

(** [fetchImage] without processors goes through [SetImageAsync], which
    never looks at the cache: the image cached by scenario A is fetched
    again. *)
Example fetchImage_without_processors :
  let url := "http://img.example/a.png" in
  let first := SetImageScaledContext Demo.env false url 100 100
                                     ["resize"] Demo.fresh in
  events (fetchImage Demo.env url 100 100 [] (world first)) =
    [EvAcquire; EvGET "http://img.example/a.png"; EvShow false;
     EvCloseBody; EvRelease].
Proof. vm_compute. reflexivity. Qed.

(** C3 as stated fails: a second bind for the same URL after a first
    successful one can go to the network again.  With another bounding
    box the cached file may not decode (a 1000 by 1 image in a 10 by 10
    box is asked for at 10 by 0); [SetImageScaledContext] looks a URL
    that holds "gif" up under another key than [GetPixbufScaled] wrote;
    and [SetImageAsync] never looks at the cache. *)
Lemma second_bind_fetches_again :
  ~ second_bind_from_disk Gallery.env "http://img.example/wide.png"
      (ByImage false 0 0 ["resize"]) (ByImage false 10 10 ["resize"])
      Demo.fresh /\
  ~ second_bind_from_disk Gallery.env "http://img.example/a.gif"
      (ByPixbuf 100 100 []) (ByImage false 100 100 ["resize"])
      Demo.fresh /\
  ~ second_bind_from_disk Gallery.env "http://img.example/a.png"
      (ByImage false 100 100 ["resize"]) (ByAsync 100 100)
      Demo.fresh.
Proof.
  unfold second_bind_from_disk.
  repeat split; intros H;
    specialize (H ltac:(vm_compute; reflexivity));
    vm_compute in H; discriminate.
Qed.

(** The second bind of the wide image, in full: the cached file is
    opened, fetched again, written again, and removed. *)
Example second_bind_other_box :
  let url := "http://img.example/wide.png" in
  let key := "/tmp/gtkcord3-hackadoll3/img.example/_wide.png_" in
  let first := SetImageScaledContext Gallery.env false url 0 0
                                     ["resize"] Demo.fresh in
  let again := SetImageScaledContext Gallery.env false url 10 10
                                     ["resize"] (world first) in
  outcome first = Returns None /\
  files (world first) !! key = Some "img:wide" /\
  MaxSize 1000 1 10 10 = Some (10, 0) /\
  events again =
    [EvMkdirAll "/tmp/gtkcord3-hackadoll3/img.example";
     EvOpen key; EvAcquire; EvGET url; EvProcess false; EvCloseBody;
     EvRelease; EvWriteFile key "img:wide"; EvOpen key; EvRemove key] /\
  files (world again) !! key = None.
Proof. vm_compute. repeat split. Qed.

(** ** A download that does not decode *)



Example undecodable_download_events :
  events (SetImageScaledContext Demo.env false "http://img.example/page.png"
            100 100 [] Demo.fresh) =
  [EvMkdirAll "/tmp/gtkcord3-hackadoll3/img.example";
   EvOpen "/tmp/gtkcord3-hackadoll3/img.example/_page.png_";
   EvAcquire; EvGET "http://img.example/page.png"; EvCloseBody; EvRelease;
   EvWriteFile "/tmp/gtkcord3-hackadoll3/img.example/_page.png_" "<html>";
   EvOpen "/tmp/gtkcord3-hackadoll3/img.example/_page.png_";
   EvRemove "/tmp/gtkcord3-hackadoll3/img.example/_page.png_"].
Proof. vm_compute. reflexivity. Qed.

(** * Further properties *)

(** ** [MaxSize] *)

(** X1: [MaxSize] panics (division by zero) exactly when the size is not
    strictly inside the box and the side it divides by, the width when
    [w > h] and the height otherwise, is zero. *)
Theorem MaxSize_panics_iff (w h maxW maxH : Z) :
  MaxSize w h maxW maxH = None <->
  ~ (w < maxW /\ h < maxH) /\ (if w >? h then w = 0 else h = 0).
Proof.
  unfold MaxSize, GoInt.div.
  destruct (Z.ltb_spec w maxW); destruct (Z.ltb_spec h maxH); cbn [andb];
    try (split; [discriminate|intros [Hn _]; exfalso; apply Hn; lia]);
    destruct (w >? h);
    match goal with
    | |- context [?d =? 0] => destruct (Z.eqb_spec d 0)
    end;
    split; try discriminate; try (intros _; split; [lia|assumption]);
    try (intros [_ ?]; congruence); auto.
Qed.

Lemma dim_product a b : dim a -> dim b -> a * b <= GoInt.MaxInt.
Proof.
  unfold dim. change (2 ^ 31) with 2147483648. rewrite MaxInt_value.
  intros Ha Hb. nia.
Qed.

(** X2: in a square box, with dimensions that fit 32 bits, [MaxSize]
    never scales up and its output fits the box. *)
Theorem MaxSize_square_box (w h m : Z) :
  dim w -> dim h -> dim m ->
  exists ow oh,
    MaxSize w h m m = Some (ow, oh) /\
    0 <= ow <= w /\ 0 <= oh <= h /\ ow <= m /\ oh <= m.
Proof.
  intros Hw Hh Hm.
  pose proof (dim_product h m Hh Hm) as Hhm.
  pose proof (dim_product w m Hw Hm) as Hwm.
  unfold dim in Hw, Hh, Hm. unfold MaxSize.
  destruct ((w <? m) && (h <? m)) eqn:Hin.
  { apply andb_true_iff in Hin. destruct Hin as [H1 H2].
    apply Z.ltb_lt in H1, H2. exists w, h. split; [reflexivity|lia]. }
  assert (Hout : m <= w \/ m <= h).
  { apply andb_false_iff in Hin. destruct Hin as [H|H];
      apply Z.ltb_ge in H; auto. }
  destruct (Z.gtb_spec w h) as [Hgt|Hle].
  - rewrite (scale_exact h m w) by lia.
    exists m, (h * m / w). split; [reflexivity|].
    assert (h * m / w <= h) by (apply Z.div_le_upper_bound; nia).
    assert (h * m / w <= m) by (apply Z.div_le_upper_bound; nia).
    assert (0 <= h * m / w) by (apply Z.div_pos; nia).
    lia.
  - rewrite (scale_exact w m h) by lia.
    exists (w * m / h), m. split; [reflexivity|].
    assert (w * m / h <= w) by (apply Z.div_le_upper_bound; nia).
    assert (w * m / h <= m) by (apply Z.div_le_upper_bound; nia).
    assert (0 <= w * m / h) by (apply Z.div_pos; nia).
    lia.
Qed.

Lemma MaxSize_square_box_witness :
  exists ow oh,
    MaxSize 200 50 100 100 = Some (ow, oh) /\
    0 <= ow <= 200 /\ 0 <= oh <= 50 /\ ow <= 100 /\ oh <= 100.
Proof.
  apply (MaxSize_square_box 200 50 100); unfold dim; lia.
Defined.

Lemma scale_back q m :
  0 <= q -> q <= m -> dim m -> GoInt.div (GoInt.mul q m) m = Some q.
Proof.
  intros Hq Hqm Hm. pose proof (dim_product m m Hm Hm) as Hmm.
  unfold dim in Hm.
  rewrite mul_exact by nia. rewrite div_exact by nia.
  rewrite Z.div_mul by lia. reflexivity.
Qed.

(** X3: with dimensions that fit 32 bits, the size [MaxSize] returns is
    stable: negotiated again in the same box it comes back unchanged. *)
Theorem MaxSize_stable (w h maxW maxH ow oh : Z) :
  dim w -> dim h -> dim maxW -> dim maxH ->
  MaxSize w h maxW maxH = Some (ow, oh) ->
  MaxSize ow oh maxW maxH = Some (ow, oh).
Proof.
  intros Hw Hh HmW HmH.
  pose proof (dim_product h maxW Hh HmW) as HhW.
  pose proof (dim_product w maxH Hw HmH) as HwH.
  pose proof Hw as Hw'. pose proof Hh as Hh'.
  pose proof HmW as HmW'. pose proof HmH as HmH'.
  unfold dim in Hw', Hh', HmW', HmH'. unfold MaxSize at 1.
  destruct ((w <? maxW) && (h <? maxH)) eqn:Hin.
  { intros [= <- <-]. unfold MaxSize. rewrite Hin. reflexivity. }
  destruct (Z.gtb_spec w h) as [Hgt|Hle].
  - rewrite (scale_exact h maxW w) by lia. intros [= <- <-].
    assert (0 <= h * maxW / w) by (apply Z.div_pos; nia).
    assert (h * maxW / w < maxW) by (apply Z.div_lt_upper_bound; nia).
    unfold MaxSize. rewrite Z.ltb_irrefl. cbn [andb].
    destruct (Z.gtb_spec maxW (h * maxW / w)); [|lia].
    rewrite scale_back by (assumption || lia). reflexivity.
  - rewrite (scale_exact w maxH h) by lia. intros [= <- <-].
    assert (0 <= w * maxH / h) by (apply Z.div_pos; nia).
    assert (w * maxH / h <= maxH) by (apply Z.div_le_upper_bound; nia).
    unfold MaxSize. rewrite Z.ltb_irrefl, andb_false_r.
    destruct (Z.gtb_spec (w * maxH / h) maxH); [lia|].
    rewrite scale_back by (assumption || lia). reflexivity.
Qed.

Lemma MaxSize_stable_witness :
  MaxSize 100 25 100 100 = Some (100, 25).
Proof.
  apply (MaxSize_stable 200 50 100 100 100 25);
    unfold dim; try lia; reflexivity.
Defined.

(** ** The start-up sweep, again *)

Lemma cleanUpCache_lookup (t : TempRoot) (d : string) :
  entries (cleanUpCache t) !! d =
  if listable t
     && (HasPrefix d (CachePrefix ++ "-") && negb (String.eqb d DirName))
  then None else entries t !! d.
Proof.
  unfold cleanUpCache.
  destruct (Readdirnames t) as [dirs|] eqn:Hdirs.
  - assert (Hl : listable t = true)
      by (unfold Readdirnames in Hdirs; destruct (listable t);
          [reflexivity|discriminate]).
    rewrite Hl. cbn [andb].
    destruct (HasPrefix d (CachePrefix ++ "-") && negb (String.eqb d DirName))
      eqn:Hsel; [|apply sweep_keeps, Hsel].
    destruct (entries t !! d) as [n|] eqn:Hd.
    + apply sweep_removes; [|exact Hsel].
      apply (Readdirnames_entries t dirs d Hdirs). eauto.
    + apply sweep_gone, Hd.
  - unfold Readdirnames in Hdirs. destruct (listable t); [discriminate|].
    reflexivity.
Qed.

Lemma cleanUpCache_listable (t : TempRoot) :
  listable (cleanUpCache t) = listable t.
Proof.
  unfold cleanUpCache. destruct (Readdirnames t) as [dirs|]; [|reflexivity].
  generalize t. induction dirs as [|x dirs IH]; intros t0; [reflexivity|].
  cbn [foldl]. rewrite IH.
  destruct (HasPrefix x (CachePrefix ++ "-") && negb (String.eqb x DirName));
    reflexivity.
Qed.

(** X4: the sweep only removes, and a second sweep changes nothing: what
    is left after [cleanUpCache] is a part of what was there, and
    [cleanUpCache] leaves it as it is. *)
Theorem cleanUpCache_idempotent (t : TempRoot) :
  entries (cleanUpCache t) ⊆ entries t /\
  cleanUpCache (cleanUpCache t) = cleanUpCache t.
Proof.
  split.
  - apply map_subseteq_spec. intros d n.
    rewrite cleanUpCache_lookup.
    destruct (listable t && _); [discriminate|auto].
  - assert (He : entries (cleanUpCache (cleanUpCache t))
                 = entries (cleanUpCache t)).
    { apply map_eq. intros d.
      rewrite (cleanUpCache_lookup (cleanUpCache t)), cleanUpCache_listable.
      rewrite cleanUpCache_lookup.
      destruct (listable t && _); reflexivity. }
    pose proof (cleanUpCache_listable (cleanUpCache t)) as Hl.
    destruct (cleanUpCache (cleanUpCache t)) as [l1 e1].
    destruct (cleanUpCache t) as [l2 e2].
    cbn [entries listable] in *. congruence.
Qed.

(** ** [SanitizeString], again *)

Lemma sanitized_fixed E r : sanitized E r -> sanitize_rune E r = r.
Proof.
  unfold sanitized, sanitize_rune.
  intros [H|[H|[H|[H|H]]]]; try (rewrite H; rewrite ?orb_true_r; reflexivity).
  subst r. destruct (_ || _ || _ || _); reflexivity.
Qed.

Lemma sanitize_rune_idem E r :
  sanitize_rune E (sanitize_rune E r) = sanitize_rune E r.
Proof. apply sanitized_fixed, sanitize_rune_sanitized. Qed.

(** X5: [SanitizeString] is idempotent: a sanitized name is left as it
    is. *)
Theorem SanitizeString_idempotent (E : Env) (str : string) :
  SanitizeString E (SanitizeString E str) = SanitizeString E str.
Proof.
  unfold SanitizeString. unfold strings_Map at 1.
  rewrite runes_strings_Map by apply sanitize_rune_scalar.
  unfold strings_Map.
  induction (utf8.runes str) as [|r l IH]; [reflexivity|].
  cbn [map fold_right]. rewrite sanitize_rune_idem, IH. reflexivity.
Qed.

Lemma chr_val c : utf8.chr (utf8.val c) = c.
Proof.
  unfold utf8.chr. pose proof (val_range c) as Hc.
  rewrite Z.mod_small by exact Hc. unfold utf8.val.
  rewrite N2Z.id. apply ascii_N_embedding.
Qed.

Lemma runes_ascii c (s : string) :
  utf8.val c < 128 -> utf8.runes (String c s) = utf8.val c :: utf8.runes s.
Proof.
  intros Hc. unfold utf8.runes. cbn [utf8.runes_from].
  rewrite decode1 by exact Hc. reflexivity.
Qed.

Lemma EncodeRune_ascii c :
  utf8.val c < 128 -> utf8.EncodeRune (utf8.val c) = String c EmptyString.
Proof.
  intros Hc. pose proof (val_range c) as Hr. unfold utf8.EncodeRune.
  unfold utf8.rune1Max.
  destruct (Z.leb_spec 0 (utf8.val c)); [|lia].
  destruct (Z.leb_spec (utf8.val c) 127); [|lia].
  cbn [andb]. rewrite chr_val. reflexivity.
Qed.

(** X6: a string of ASCII bytes that are all letters, digits, '#', '.'
    or '_' is its own sanitized form; so "." and ".." stay what they
    are. *)
Theorem SanitizeString_clean (E : Env) (str : string) :
  string_Forall (fun c => utf8.val c < 128 /\ sanitized E (utf8.val c)) str ->
  SanitizeString E str = str.
Proof.
  unfold SanitizeString, strings_Map.
  induction str as [|c s IH]; [reflexivity|].
  intros [[Hc Hs] Hrest].
  rewrite runes_ascii by exact Hc. cbn [fold_right].
  rewrite sanitized_fixed by exact Hs.
  pose proof (val_range c).
  destruct (Z.ltb_spec (utf8.val c) 0); [lia|].
  rewrite EncodeRune_ascii by exact Hc.
  rewrite IH by exact Hrest. reflexivity.
Qed.

Lemma SanitizeString_clean_witness :
  SanitizeString Demo.env ".." = "..".
Proof.
  apply (SanitizeString_clean Demo.env "..").
  cbn. repeat split; try lia; right; right; right; left; reflexivity.
Defined.

Lemma string_Forall_app (P : ascii -> Prop) (s t : string) :
  string_Forall P s -> string_Forall P t -> string_Forall P (s ++ t).
Proof.
  induction s as [|c s IH]; intros Hs Ht; [exact Ht|].
  rewrite append_String. destruct Hs as [Hc Hs].
  split; [exact Hc|apply IH; assumption].
Qed.

(** The bytes [EncodeRune] writes for a scalar value: the value itself
    when it is ASCII, bytes from 128 up otherwise. *)
Lemma EncodeRune_bytes r :
  scalar r ->
  string_Forall (fun b => (r < 128 /\ utf8.val b = r) \/ 128 <= utf8.val b)
                (utf8.EncodeRune r).
Proof.
  unfold scalar, utf8.MaxRune, utf8.surrogateMin, utf8.surrogateMax.
  intros [Hr Hs]. unfold utf8.EncodeRune.
  unfold utf8.rune1Max, utf8.rune2Max, utf8.rune3Max, utf8.MaxRune,
    utf8.surrogateMin, utf8.surrogateMax.
  destruct (Z.leb_spec 0 r); [|lia]. cbn [andb].
  destruct (Z.leb_spec r 127).
  { cbn [string_Forall]. rewrite val_chr_small by lia. split; [|exact I].
    left. lia. }
  destruct (Z.leb_spec r 2047).
  { cbn [string_Forall]. rewrite lead2, cont by lia.
    assert (0 <= r / 64 < 32) by arith.
    assert (0 <= r mod 64 < 64) by arith.
    rewrite !val_chr_small by lia. repeat split; right; lia. }
  destruct (Z.ltb_spec r 0); [lia|].
  destruct (Z.ltb_spec 1114111 r); [lia|].
  destruct (Z.leb_spec 55296 r); destruct (Z.leb_spec r 57343); try lia;
    cbn [orb andb].
  all: destruct (Z.leb_spec r 65535).
  all: try (unfold utf8.encode3; cbn [string_Forall];
            rewrite lead3 by lia; rewrite shiftr_6, !cont;
            assert (0 <= r / 4096 < 16) by arith;
            assert (0 <= (r / 64) mod 64 < 64) by arith;
            assert (0 <= r mod 64 < 64) by arith;
            rewrite !val_chr_small by lia; repeat split; right; lia).
  all: unfold utf8.encode4; cbn [string_Forall];
    rewrite lead4 by lia; rewrite shiftr_6, shiftr_12, !cont;
    assert (0 <= r / 262144 < 5) by arith;
    assert (0 <= (r / 4096) mod 64 < 64) by arith;
    assert (0 <= (r / 64) mod 64 < 64) by arith;
    assert (0 <= r mod 64 < 64) by arith;
    rewrite !val_chr_small by lia; repeat split; right; lia.
Qed.

(** X7: an ASCII byte that is no letter, no digit and none of '#', '.'
    and '_' never occurs in a sanitized name; the path separator is one
    such byte. *)
Theorem SanitizeString_excludes (E : Env) (str : string) (c : ascii) :
  utf8.val c < 128 -> ~ sanitized E (utf8.val c) ->
  string_Forall (fun b => b <> c) (SanitizeString E str).
Proof.
  intros Hc Hns. unfold SanitizeString, strings_Map.
  pose proof (runes_scalar str) as Hsc.
  induction (utf8.runes str) as [|r l IH]; [exact I|].
  inversion Hsc as [|? ? Hr Hl]; subst. cbn [fold_right].
  destruct (sanitize_rune E r <? 0); [apply IH, Hl|].
  apply string_Forall_app; [|apply IH, Hl].
  pose proof (EncodeRune_bytes _ (sanitize_rune_scalar E r Hr)) as Hb.
  pose proof (sanitize_rune_sanitized E r) as Hsan.
  induction (utf8.EncodeRune (sanitize_rune E r)) as [|b t IHt]; [exact I|].
  destruct Hb as [Hb Ht]. split; [|apply IHt, Ht].
  intros ->. destruct Hb as [[_ Hb]|Hb]; [|lia].
  apply Hns. rewrite Hb. exact Hsan.
Qed.

Lemma SanitizeString_excludes_witness :
  string_Forall (fun b => b <> "/"%char)
                (SanitizeString Demo.env "/../etc/passwd").
Proof.
  apply (SanitizeString_excludes Demo.env "/../etc/passwd" "/"%char).
  - vm_compute. reflexivity.
  - intros [H|[H|[H|[H|H]]]]; vm_compute in H; discriminate.
Defined.

Ltac invalid_byte :=
  split; [cbn [String.length] in *; lia|left; split; [reflexivity|right; reflexivity]].

Lemma DecodeRuneInString_decoded c (s : string) :
  decoded (String.length (String c s))
          (utf8.DecodeRuneInString (String c s)).1
          (utf8.DecodeRuneInString (String c s)).2.
Proof.
  unfold utf8.DecodeRuneInString.
  remember (String c s) as str eqn:Hstr.
  assert (Hlen : (1 <= String.length str)%nat)
    by (subst str; cbn [String.length]; lia).
  clear Hstr.
  destruct (Nat.ltb_spec (String.length str) 1); [lia|].
  pose proof (at_range str 0) as H0. pose proof (at_range str 1) as H1.
  pose proof (at_range str 2) as H2. pose proof (at_range str 3) as H3.
  generalize dependent (utf8.at_ str 0). intros a Ha.
  generalize dependent (utf8.at_ str 1). intros b Hb.
  generalize dependent (utf8.at_ str 2). intros c2 Hc.
  generalize dependent (utf8.at_ str 3). intros d Hd.
  unfold decoded.
  destruct (utf8.first a) as [| |sz lo hi] eqn:Hf; cbn [fst snd].
  { apply first_AS in Hf. split; [lia|]. left. split; [reflexivity|left; lia]. }
  { split; [lia|left; split; [reflexivity|right; reflexivity]]. }
  apply first_SEQ in Hf.
  destruct (Nat.ltb_spec (String.length str) sz);
    [cbn [orb fst snd]; split; [lia|left; split; [reflexivity|right; reflexivity]]|].
  destruct (Z.ltb_spec b lo);
    [cbn [orb fst snd]; split; [lia|left; split; [reflexivity|right; reflexivity]]|].
  destruct (Z.ltb_spec hi b);
    [cbn [orb fst snd]; split; [lia|left; split; [reflexivity|right; reflexivity]]|].
  cbn [orb]. unfold utf8.locb, utf8.hicb.
  destruct Hf as [Hf|[Hf|[Hf|[Hf|[Hf|[Hf|Hf]]]]]];
    destruct Hf as (-> & Hf); cbn [Nat.leb].
  - cbn [fst snd]. rewrite value2 by assumption.
    split; [lia|]. right; left. split; [reflexivity|arith].
  - destruct Hf as (-> & -> & ->).
    destruct (Z.ltb_spec c2 128);
      [cbn [orb fst snd]; split; [lia|left; split; [reflexivity|right; reflexivity]]|].
    destruct (Z.ltb_spec 191 c2);
      [cbn [orb fst snd]; split; [lia|left; split; [reflexivity|right; reflexivity]]|].
    cbn [orb fst snd]. rewrite value3 by lia.
    split; [lia|]. right; right; left. split; [reflexivity|arith].
  - destruct Hf as (Hr & Hne & -> & ->).
    destruct (Z.ltb_spec c2 128);
      [cbn [orb fst snd]; split; [lia|left; split; [reflexivity|right; reflexivity]]|].
    destruct (Z.ltb_spec 191 c2);
      [cbn [orb fst snd]; split; [lia|left; split; [reflexivity|right; reflexivity]]|].
    cbn [orb fst snd]. rewrite value3 by lia.
    split; [lia|]. right; right; left. split; [reflexivity|arith].
  - destruct Hf as (-> & -> & ->).
    destruct (Z.ltb_spec c2 128);
      [cbn [orb fst snd]; split; [lia|left; split; [reflexivity|right; reflexivity]]|].
    destruct (Z.ltb_spec 191 c2);
      [cbn [orb fst snd]; split; [lia|left; split; [reflexivity|right; reflexivity]]|].
    cbn [orb fst snd]. rewrite value3 by lia.
    split; [lia|]. right; right; left. split; [reflexivity|arith].
  - destruct Hf as (-> & -> & ->).
    destruct (Z.ltb_spec c2 128);
      [cbn [orb fst snd]; split; [lia|left; split; [reflexivity|right; reflexivity]]|].
    destruct (Z.ltb_spec 191 c2);
      [cbn [orb fst snd]; split; [lia|left; split; [reflexivity|right; reflexivity]]|].
    destruct (Z.ltb_spec d 128);
      [cbn [orb fst snd]; split; [lia|left; split; [reflexivity|right; reflexivity]]|].
    destruct (Z.ltb_spec 191 d);
      [cbn [orb fst snd]; split; [lia|left; split; [reflexivity|right; reflexivity]]|].
    cbn [orb fst snd]. rewrite value4 by lia.
    split; [lia|]. right; right; right. split; [reflexivity|arith].
  - destruct Hf as (Hr & -> & ->).
    destruct (Z.ltb_spec c2 128);
      [cbn [orb fst snd]; split; [lia|left; split; [reflexivity|right; reflexivity]]|].
    destruct (Z.ltb_spec 191 c2);
      [cbn [orb fst snd]; split; [lia|left; split; [reflexivity|right; reflexivity]]|].
    destruct (Z.ltb_spec d 128);
      [cbn [orb fst snd]; split; [lia|left; split; [reflexivity|right; reflexivity]]|].
    destruct (Z.ltb_spec 191 d);
      [cbn [orb fst snd]; split; [lia|left; split; [reflexivity|right; reflexivity]]|].
    cbn [orb fst snd]. rewrite value4 by lia.
    split; [lia|]. right; right; right. split; [reflexivity|arith].
  - destruct Hf as (-> & -> & ->).
    destruct (Z.ltb_spec c2 128);
      [cbn [orb fst snd]; split; [lia|left; split; [reflexivity|right; reflexivity]]|].
    destruct (Z.ltb_spec 191 c2);
      [cbn [orb fst snd]; split; [lia|left; split; [reflexivity|right; reflexivity]]|].
    destruct (Z.ltb_spec d 128);
      [cbn [orb fst snd]; split; [lia|left; split; [reflexivity|right; reflexivity]]|].
    destruct (Z.ltb_spec 191 d);
      [cbn [orb fst snd]; split; [lia|left; split; [reflexivity|right; reflexivity]]|].
    cbn [orb fst snd]. rewrite value4 by lia.
    split; [lia|]. right; right; right. split; [reflexivity|arith].
Qed.

(** The number of bytes [EncodeRune] writes. *)
Lemma EncodeRune_length r :
  String.length (utf8.EncodeRune r) =
  if (0 <=? r) && (r <=? 127) then 1%nat
  else if (0 <=? r) && (r <=? 2047) then 2%nat
  else if (r <? 0) || (1114111 <? r) || ((55296 <=? r) && (r <=? 57343))
       then 3%nat
  else if r <=? 65535 then 3%nat else 4%nat.
Proof.
  unfold utf8.EncodeRune, utf8.rune1Max, utf8.rune2Max, utf8.rune3Max,
    utf8.MaxRune, utf8.surrogateMin, utf8.surrogateMax.
  destruct ((0 <=? r) && (r <=? 127)); [reflexivity|].
  destruct ((0 <=? r) && (r <=? 2047)); [reflexivity|].
  destruct ((r <? 0) || (1114111 <? r) || ((55296 <=? r) && (r <=? 57343)));
    [reflexivity|].
  destruct (r <=? 65535); reflexivity.
Qed.

(** A decoded rune is written back in as many bytes as it was read from,
    except the [RuneError] that stands for one invalid byte. *)
Lemma decoded_EncodeRune len r n :
  decoded len r n ->
  String.length (utf8.EncodeRune r) = n \/ (r = utf8.RuneError /\ n = 1%nat).
Proof.
  intros [_ H]. rewrite EncodeRune_length.
  destruct H as [[-> [H|H]]|[[-> H]|[[-> [H Hs]]|[-> H]]]].
  - left. destruct (Z.leb_spec 0 r); destruct (Z.leb_spec r 127);
      cbn [andb]; lia || reflexivity.
  - right. auto.
  - left. destruct (Z.leb_spec 0 r); destruct (Z.leb_spec r 127);
      destruct (Z.leb_spec r 2047); cbn [andb]; lia || reflexivity.
  - left. destruct (Z.leb_spec 0 r); destruct (Z.leb_spec r 127);
      destruct (Z.leb_spec r 2047); destruct (Z.ltb_spec r 0);
      destruct (Z.ltb_spec 1114111 r); destruct (Z.leb_spec 55296 r);
      destruct (Z.leb_spec r 57343); destruct (Z.leb_spec r 65535);
      cbn [andb orb]; lia || reflexivity.
  - left. destruct (Z.leb_spec 0 r); destruct (Z.leb_spec r 127);
      destruct (Z.leb_spec r 2047); destruct (Z.ltb_spec r 0);
      destruct (Z.ltb_spec 1114111 r); destruct (Z.leb_spec 55296 r);
      destruct (Z.leb_spec r 57343); destruct (Z.leb_spec r 65535);
      cbn [andb orb]; lia || reflexivity.
Qed.

Lemma length_append (s t : string) :
  String.length (s ++ t) = (String.length s + String.length t)%nat.
Proof.
  induction s as [|c s IH]; [reflexivity|].
  rewrite append_String. cbn [String.length]. rewrite IH. reflexivity.
Qed.

(** What [SanitizeString] writes for a decoded rune is no longer than
    what was read. *)
Lemma sanitize_rune_width E len r n :
  IsLetter E utf8.RuneError = false -> IsDigit E utf8.RuneError = false ->
  decoded len r n ->
  (String.length (utf8.EncodeRune (sanitize_rune E r)) <= n)%nat.
Proof.
  intros HL HD Hdec. pose proof Hdec as [[Hn _] _].
  unfold sanitize_rune.
  destruct (IsLetter E r || IsDigit E r || (r =? utf8.val "#")
            || (r =? utf8.val ".")) eqn:Hkeep;
    [|change (utf8.EncodeRune (utf8.val "_")) with "_";
      cbn [String.length]; lia].
  destruct (decoded_EncodeRune len r n Hdec) as [->|[-> ->]]; [lia|].
  rewrite HL, HD in Hkeep. discriminate.
Qed.

Lemma Map_length_from E (s : string) :
  IsLetter E utf8.RuneError = false -> IsDigit E utf8.RuneError = false ->
  forall k, (k <= String.length s)%nat ->
  (String.length
     (fold_right
        (fun c acc => let r := sanitize_rune E c in
                      if (r <? 0)%Z then acc
                      else (utf8.EncodeRune r ++ acc)%string)
        EmptyString (utf8.runes_from k s)) + k <= String.length s)%nat.
Proof.
  intros HL HD. induction s as [|c s IH]; intros k Hk.
  { cbn in *. lia. }
  destruct k as [|k]; cbn [utf8.runes_from].
  - pose proof (DecodeRuneInString_decoded c s) as Hdec.
    destruct (utf8.DecodeRuneInString (String c s)) as [r n].
    cbn [fst snd] in Hdec. cbn [fold_right].
    pose proof (sanitize_rune_width E _ r n HL HD Hdec) as Hw.
    destruct Hdec as [Hn _]. cbn [String.length] in Hn.
    specialize (IH (n - 1)%nat ltac:(lia)).
    cbv zeta in *. destruct (sanitize_rune E r <? 0);
      [|rewrite length_append]; cbn [String.length]; lia.
  - cbn [String.length] in *. specialize (IH k ltac:(lia)). lia.
Qed.

(** X8: counted in bytes, a sanitized name is never longer than the
    string it comes from, provided U+FFFD is neither a letter nor a
    digit (it is a symbol in Unicode). *)
Theorem SanitizeString_no_longer (E : Env) (str : string) :
  IsLetter E utf8.RuneError = false -> IsDigit E utf8.RuneError = false ->
  (String.length (SanitizeString E str) <= String.length str)%nat.
Proof.
  intros HL HD.
  pose proof (Map_length_from E str HL HD 0%nat ltac:(lia)) as H.
  rewrite Nat.add_0_r in H. exact H.
Qed.

Lemma SanitizeString_no_longer_witness :
  (String.length (SanitizeString Demo.env (utf8.EncodeRune 8364 ++ "1.50"))
   <= String.length (utf8.EncodeRune 8364 ++ "1.50"))%nat.
Proof.
  apply (SanitizeString_no_longer Demo.env); reflexivity.
Defined.

(** ** Permits and attempts *)

Lemma count_local p (evs : list Event) :
  Forall is_local evs -> (forall e, is_local e -> p e = false) ->
  count p evs = 0%nat.
Proof.
  intros Hl Hp. induction Hl as [|e evs He _ IH]; [reflexivity|].
  cbn [count]. rewrite (Hp e He), IH. reflexivity.
Qed.

Lemma TransformURL_local E s w : Forall is_local (events (TransformURL E s w)).
Proof.
  rewrite TransformURL_run. cbn [events].
  destruct (url_Parse E s); repeat constructor.
Qed.

Lemma setImageFromFile_local E path gif w h w0 :
  Forall is_local (events (setImageFromFile E path gif w h w0)).
Proof.
  destruct (setImageFromFile_run E path gif w h (files w0 !! path))
    as (o & evs & Hevs & Hrun).
  rewrite Hrun by reflexivity. cbn [events].
  destruct Hevs as [-> | ->]; repeat constructor.
Qed.

Lemma getPixbufFromFile_local E path w h w0 :
  Forall is_local (events (getPixbufFromFile E path w h w0)).
Proof. rewrite getPixbufFromFile_events. repeat constructor. Qed.

Ltac not_local := intros [] H; (reflexivity || destruct H).

Lemma local_not_GET e : is_local e -> is_GET e = false.
Proof. revert e. not_local. Qed.
Lemma local_not_Acquire e : is_local e -> is_Acquire e = false.
Proof. revert e. not_local. Qed.
Lemma local_not_Release e : is_local e -> is_Release e = false.
Proof. revert e. not_local. Qed.
Lemma local_not_WriteFile e : is_local e -> is_WriteFile e = false.
Proof. revert e. not_local. Qed.
Lemma local_not_Remove e : is_local e -> is_Remove e = false.
Proof. revert e. not_local. Qed.

Lemma count_TransformURL p E s w :
  (forall e, is_local e -> p e = false) ->
  count p (events (TransformURL E s w)) = 0%nat.
Proof. apply count_local, TransformURL_local. Qed.

Lemma count_setImageFromFile p E path gif w h w0 :
  (forall e, is_local e -> p e = false) ->
  count p (events (setImageFromFile E path gif w h w0)) = 0%nat.
Proof. apply count_local, setImageFromFile_local. Qed.

Lemma count_getPixbufFromFile p E path w h w0 :
  (forall e, is_local e -> p e = false) ->
  count p (events (getPixbufFromFile E path w h w0)) = 0%nat.
Proof. apply count_local, getPixbufFromFile_local. Qed.

(** Local events count for nothing. *)
Ltac local_side :=
  first [apply local_not_GET | apply local_not_Acquire
        | apply local_not_Release | apply local_not_WriteFile
        | apply local_not_Remove].

Ltac drop_local :=
  rewrite ?count_TransformURL by local_side;
  rewrite ?count_setImageFromFile by local_side;
  rewrite ?count_getPixbufFromFile by local_side.

(** [download] with a permit, once more: what lies between [Acquire]
    and [Release]. *)
Lemma download_between E ctx url pp gif w0 :
  sema_Acquire E ctx (held w0) = Acquired ->
  exists x mid,
    download E ctx url pp gif w0 =
    mkRun (Returns x) {| files := files w0; held := held w0 + 1 - 1 |}
          (EvAcquire :: mid ++ [EvRelease]) /\
    count is_Acquire mid = 0%nat /\ count is_Release mid = 0%nat /\
    count is_WriteFile mid = 0%nat /\ count is_Remove mid = 0%nat /\
    (count is_GET mid <= 1)%nat /\
    (NewRequestWithContext E url = None -> count is_GET mid = 1%nat).
Proof.
  intros Hacq. unfold download, bind at 1, Acquire. rewrite Hacq.
  cbn [outcome world events]. unfold defer at 1, Release.
  unfold Do, bind, defer, emit, ret.
  destruct (NewRequestWithContext E url) as [err|].
  { eexists _, []. split; [reflexivity|]. cbn. repeat split; (lia || discriminate). }
  cbn [outcome world events app].
  destruct (Client_Do E ctx url) as [r|err].
  2:{ eexists _, [_]. split; [reflexivity|]. cbn. repeat split; lia. }
  destruct ((StatusCode r <? 200) || (StatusCode r >? 299)).
  { eexists _, [_; _]. split; [reflexivity|]. cbn. repeat split; lia. }
  destruct (0 <? length pp)%nat.
  2:{ destruct (ReadAll (Body r));
      (eexists _, [_; _]; split; [reflexivity|]; cbn; repeat split; lia). }
  destruct gif;
    (eexists _, [_; _; _]; split; [reflexivity|]; cbn; repeat split; lia).
Qed.

(** All there is to count in a run of [download]. *)
Lemma download_counts E ctx url pp gif w0 :
  let r := download E ctx url pp gif w0 in
  tidy w0 r /\ single_attempt (events r) /\
  count is_WriteFile (events r) = 0%nat /\
  count is_Remove (events r) = 0%nat.
Proof.
  cbv zeta. unfold tidy, single_attempt.
  destruct (sema_Acquire E ctx (held w0)) eqn:Hacq.
  - destruct (download_between E ctx url pp gif w0 Hacq)
      as (x & mid & -> & Ha & Hr & Hw & Hrm & Hg & _).
    cbn [world events held count is_Acquire is_Release is_GET is_WriteFile
         is_Remove].
    rewrite !count_app, Ha, Hr, Hw, Hrm. cbn. repeat split; lia.
  - destruct (download_not_acquired E ctx url pp gif w0) as (-> & -> & _);
      [congruence|cbn; repeat split; lia].
  - destruct (download_not_acquired E ctx url pp gif w0) as (-> & -> & _);
      [congruence|cbn; repeat split; lia].
Qed.

Lemma get_counts E ctx url dst pp gif w0 :
  let r := get E ctx url dst pp gif w0 in
  tidy w0 r /\ single_attempt (events r) /\
  count is_Remove (events r) = 0%nat.
Proof.
  cbv zeta.
  destruct (download_counts E ctx url pp gif w0)
    as ((Hh & Hb) & (Ha & Hg & _) & Hw & Hr).
  unfold tidy, single_attempt, get, bind.
  destruct (download E ctx url pp gif w0) as [o w1 evs].
  cbn [outcome world events] in *.
  destruct o as [[b|err]| |]; cbn [outcome world events ret];
    rewrite ?app_nil_r; try (repeat split; lia).
  unfold WriteFile.
  destruct (os_WriteFile E dst b); cbn [outcome world events ret held];
    rewrite !count_app; cbn; repeat split; lia.
Qed.

(** How a run of [bind_from] is made up: the cache key and the first
    decode; on a miss the fetch; after a fetch the second decode; and
    when that fails the removal. *)
Lemma bind_from_shape E ctx url gif w h pp w0 :
  let dst := CacheKey E url in
  let T := events (TransformURL E url w0) in
  let s1 := setImageFromFile E dst gif w h w0 in
  let g := get E ctx url dst pp gif w0 in
  let s2 := setImageFromFile E dst gif w h (world g) in
  let r := bind_from E ctx url gif w h pp w0 in
  ((forall e, outcome s1 <> Returns (Some e)) /\
   events r = (T ++ events s1)%list /\ world r = w0 /\
   outcome r = outcome s1) \/
  ((exists e0, outcome s1 = Returns (Some e0)) /\
   ((outcome g <> Returns None /\
     events r = (T ++ events s1 ++ events g)%list /\ world r = world g /\
     outcome r = outcome g) \/
    (outcome g = Returns None /\
     (((forall e, outcome s2 <> Returns (Some e)) /\
       events r = (T ++ events s1 ++ events g ++ events s2)%list /\
       world r = world g /\ outcome r = outcome s2) \/
      (exists e1,
         outcome s2 = Returns (Some e1) /\
         events r =
           (T ++ events s1 ++ events g ++ events s2 ++ [EvRemove dst])%list /\
         held (world r) = held (world g) /\
         files (world r) = delete dst (files (world g)) /\
         outcome r =
           Returns (Some (Wrap e1 "Failed to get pixbuf after downloading"))))))).
Proof.
  cbv zeta. unfold bind_from.
  rewrite (bind_returns _ _ _ _ (TransformURL_outcome E url w0)).
  rewrite TransformURL_world. cbn [outcome world events].
  destruct (outcome (setImageFromFile E (CacheKey E url) gif w h w0))
    as [[err|]| |] eqn:H1.
  2:{ left. rewrite (bind_returns _ _ _ _ H1), setImageFromFile_world.
      cbn [outcome world events ret]. rewrite app_nil_r.
      repeat split; auto; discriminate. }
  2:{ left. rewrite (bind_blocks _ _ _ H1), setImageFromFile_world.
      repeat split; auto; discriminate. }
  2:{ left. rewrite (bind_panics _ _ _ H1), setImageFromFile_world.
      repeat split; auto; discriminate. }
  right. split; [eauto|].
  rewrite (bind_returns _ _ _ _ H1), setImageFromFile_world.
  cbn [outcome world events].
  destruct (outcome (get E ctx url (CacheKey E url) pp gif w0))
    as [[err'|]| |] eqn:H2.
  1:{ left. rewrite (bind_returns _ _ _ _ H2).
      cbn [outcome world events ret]. rewrite app_nil_r.
      repeat split; auto; discriminate. }
  2:{ left. rewrite (bind_blocks _ _ _ H2).
      repeat split; auto; discriminate. }
  2:{ left. rewrite (bind_panics _ _ _ H2).
      repeat split; auto; discriminate. }
  right. split; [reflexivity|].
  rewrite (bind_returns _ _ _ _ H2). cbn [outcome world events].
  destruct (outcome (setImageFromFile E (CacheKey E url) gif w h
                       (world (get E ctx url (CacheKey E url) pp gif w0))))
    as [[err'|]| |] eqn:H3.
  2:{ left. rewrite (bind_returns _ _ _ _ H3), setImageFromFile_world.
      cbn [outcome world events ret]. rewrite app_nil_r.
      repeat split; auto; discriminate. }
  2:{ left. rewrite (bind_blocks _ _ _ H3), setImageFromFile_world.
      repeat split; auto; discriminate. }
  2:{ left. rewrite (bind_panics _ _ _ H3), setImageFromFile_world.
      repeat split; auto; discriminate. }
  right. exists err'. split; [reflexivity|].
  rewrite (bind_returns _ _ _ _ H3), setImageFromFile_world.
  cbn [world events ret bind Remove outcome held files app].
  auto.
Qed.

Lemma bind_from_counts E ctx url gif w h pp w0 :
  let r := bind_from E ctx url gif w h pp w0 in
  tidy w0 r /\ single_attempt (events r).
Proof.
  cbv zeta.
  destruct (get_counts E ctx url (CacheKey E url) pp gif w0)
    as ((Hh & Hb) & (Ha & Hg & Hw) & _).
  unfold tidy, single_attempt.
  destruct (bind_from_shape E ctx url gif w h pp w0)
    as [(_ & -> & -> & _)
       |(_ & [(_ & -> & -> & _)
             |(_ & [(_ & -> & -> & _)|(e1 & _ & -> & -> & _ & _)])])];
    rewrite !count_app; drop_local; cbn [count is_Acquire is_Release
      is_GET is_WriteFile]; repeat split; lia.
Qed.

(** How a run of [GetPixbufScaled] is made up. *)
Lemma GetPixbufScaled_shape E url w h pp w0 :
  let dst := CacheKey E url in
  let T := events (TransformURL E url w0) in
  let g := get E (Background E) url dst pp false w0 in
  let r := GetPixbufScaled E url w h pp w0 in
  (events r = (T ++ [EvOpen dst])%list /\ world r = w0) \/
  (events r = (T ++ [EvOpen dst] ++ events g)%list /\ world r = world g) \/
  (events r = (T ++ [EvOpen dst] ++ events g ++ [EvOpen dst])%list /\
   world r = world g).
Proof.
  cbv zeta. unfold GetPixbufScaled.
  rewrite (bind_returns _ _ _ _ (TransformURL_outcome E url w0)).
  rewrite TransformURL_world. cbn [outcome world events].
  destruct (outcome (getPixbufFromFile E (CacheKey E url) w h w0))
    as [[p|err]| |] eqn:H1.
  1:{ left. rewrite (bind_returns _ _ _ _ H1), getPixbufFromFile_world,
        getPixbufFromFile_events.
      cbn [world events ret]. auto. }
  2:{ left. rewrite (bind_blocks _ _ _ H1), getPixbufFromFile_world,
        getPixbufFromFile_events. auto. }
  2:{ left. rewrite (bind_panics _ _ _ H1), getPixbufFromFile_world,
        getPixbufFromFile_events. auto. }
  right. rewrite (bind_returns _ _ _ _ H1), getPixbufFromFile_world,
    getPixbufFromFile_events.
  cbn [world events].
  destruct (outcome (get E (Background E) url (CacheKey E url) pp false w0))
    as [[err'|]| |] eqn:H2.
  1:{ left. rewrite (bind_returns _ _ _ _ H2).
      cbn [world events ret]. rewrite app_nil_r. auto. }
  2:{ left. rewrite (bind_blocks _ _ _ H2). auto. }
  2:{ left. rewrite (bind_panics _ _ _ H2). auto. }
  right. rewrite (bind_returns _ _ _ _ H2). cbn [world events].
  destruct (outcome (getPixbufFromFile E (CacheKey E url) w h
              (world (get E (Background E) url (CacheKey E url) pp false w0))))
    as [[p|err']| |] eqn:H3.
  1:{ rewrite (bind_returns _ _ _ _ H3), getPixbufFromFile_world,
        getPixbufFromFile_events.
      cbn [world events ret]. auto. }
  1:{ rewrite (bind_returns _ _ _ _ H3), getPixbufFromFile_world,
        getPixbufFromFile_events.
      cbn [world events ret]. auto. }
  1:{ rewrite (bind_blocks _ _ _ H3), getPixbufFromFile_world,
        getPixbufFromFile_events. auto. }
  rewrite (bind_panics _ _ _ H3), getPixbufFromFile_world,
    getPixbufFromFile_events. auto.
Qed.

Lemma GetPixbufScaled_counts E url w h pp w0 :
  let r := GetPixbufScaled E url w h pp w0 in
  tidy w0 r /\ single_attempt (events r) /\
  count is_Remove (events r) = 0%nat.
Proof.
  cbv zeta.
  destruct (get_counts E (Background E) url (CacheKey E url) pp false w0)
    as ((Hh & Hb) & (Ha & Hg & Hw) & Hr).
  unfold tidy, single_attempt.
  destruct (GetPixbufScaled_shape E url w h pp w0)
    as [[-> ->]|[[-> ->]|[-> ->]]];
    rewrite !count_app; drop_local; cbn [count is_Acquire is_Release
      is_GET is_WriteFile is_Remove]; repeat split; lia.
Qed.

(** [setImageStream] returns or panics; it never waits. *)
Lemma setImageStream_ends E r gif w h stream :
  exists o evs,
    (forall w0, setImageStream E r gif w h stream w0 = mkRun o w0 evs) /\
    o <> Blocks /\ (evs = [] \/ evs = [EvShow gif]).
Proof.
  unfold setImageStream, negotiate, bind, defer, ret, panic, emit.
  destruct (PixbufLoaderNew E); cbn [negb];
    [|eexists _, []; split; [reflexivity|split; [discriminate|auto]]].
  destruct ((w >? 0) && (h >? 0)).
  - destruct (size_prepared E (data_of r)) as [[imgW imgH]|].
    + destruct (MaxSize imgW imgH w h) as [[w' h']|].
      * destruct (negb (w' =? imgW) || negb (h' =? imgH));
          cbn [outcome world events];
          match goal with
          | |- context [area_prepared E ?b ?s] =>
            destruct (area_prepared E b s)
          end;
          destruct (Copy E r _);
          cbn [outcome world events app];
          eexists _, _; (split; [reflexivity|split; [discriminate|auto]]).
      * eexists _, []. split; [reflexivity|split; [discriminate|auto]].
    + cbn [outcome world events].
      destruct (area_prepared E (data_of r) None);
        destruct (Copy E r None);
        cbn [outcome world events app];
        eexists _, _; (split; [reflexivity|split; [discriminate|auto]]).
  - cbn [outcome world events].
    destruct (area_prepared E (data_of r) None);
      destruct (Copy E r None);
      cbn [outcome world events app];
      eexists _, _; (split; [reflexivity|split; [discriminate|auto]]).
Qed.

(** [SetImageAsync] with a permit: what lies between [Acquire] and
    [Release]. *)
Lemma SetImageAsync_between E url w h w0 :
  sema_Acquire E (Background E) (held w0) = Acquired ->
  exists x mid,
    SetImageAsync E url w h w0 =
    mkRun x {| files := files w0; held := held w0 + 1 - 1 |}
          (EvAcquire :: mid ++ [EvRelease]) /\
    Forall (fun e => touched e = None) mid /\
    count is_Acquire mid = 0%nat /\ count is_Release mid = 0%nat /\
    (count is_GET mid <= 1)%nat /\
    (NewRequestWithContext E url = None -> In (EvGET url) mid).
Proof.
  intros Hacq. unfold SetImageAsync, bind at 1, Acquire. rewrite Hacq.
  cbn [outcome world events]. unfold defer at 1, Release.
  unfold Do, bind, defer, emit, ret.
  destruct (NewRequestWithContext E url) as [err|].
  { eexists _, []. split; [reflexivity|]. cbn.
    repeat split; (lia || discriminate || constructor). }
  cbn [outcome world events app].
  destruct (Client_Do E (Background E) url) as [r|err].
  2:{ eexists _, [_]. split; [reflexivity|]. cbn.
      repeat split; try lia; try (repeat constructor); auto. }
  destruct ((StatusCode r <? 200) || (StatusCode r >? 299)).
  { eexists _, [_; _]. split; [reflexivity|]. cbn.
    repeat split; try lia; try (repeat constructor); auto. }
  destruct (setImageStream_ends E (Body r) (Contains url ".gif") w h true)
    as (o & evs & Hrun & Ho & Hevs).
  rewrite !Hrun. cbn [outcome world events app].
  destruct Hevs as [-> | ->]; destruct o; try congruence;
    first [ eexists _, [_; _]; split; [cbn; reflexivity|]
          | eexists _, [_; _; _]; split; [cbn; reflexivity|] ];
    cbn; repeat split; try lia; try (repeat constructor); auto.
Qed.

Lemma SetImageAsync_not_acquired E url w h w0 :
  sema_Acquire E (Background E) (held w0) <> Acquired ->
  events (SetImageAsync E url w h w0) = [] /\
  world (SetImageAsync E url w h w0) = w0.
Proof.
  intros Hacq. unfold SetImageAsync, bind, Acquire.
  destruct (sema_Acquire E (Background E) (held w0));
    [congruence| |]; cbn; auto.
Qed.

Lemma SetImageAsync_counts E url w h w0 :
  let r := SetImageAsync E url w h w0 in
  tidy w0 r /\ single_attempt (events r) /\
  files (world r) = files w0 /\
  Forall (fun e => touched e = None) (events r).
Proof.
  cbv zeta. unfold tidy, single_attempt.
  destruct (sema_Acquire E (Background E) (held w0)) eqn:Hacq.
  - destruct (SetImageAsync_between E url w h w0 Hacq)
      as (x & mid & -> & Ht & Ha & Hr & Hg & _).
    cbn [world events held files count is_Acquire is_Release is_GET
         is_WriteFile].
    rewrite !count_app, Ha, Hr. cbn.
    assert (Hw : count is_WriteFile mid = 0%nat).
    { clear -Ht. induction Ht as [|e l He _ IH]; [reflexivity|].
      cbn [count]. rewrite IH. destruct e; try reflexivity; discriminate. }
    rewrite Hw. repeat split; try lia.
    constructor; [reflexivity|].
    apply Forall_app. split; [exact Ht|repeat constructor].
  - destruct (SetImageAsync_not_acquired E url w h w0) as (-> & ->);
      [congruence|cbn; repeat split; try lia; constructor].
  - destruct (SetImageAsync_not_acquired E url w h w0) as (-> & ->);
      [congruence|cbn; repeat split; try lia; constructor].
Qed.

(** [fetchImage]: the bind it chooses, and the error logged. *)
Lemma fetchImage_shape E url w h pp w0 :
  let inner :=
    (if (length pp =? 0)%nat
     then SetImageAsync E url w h
     else SetImageScaled E url w h pp) w0 in
  let r := fetchImage E url w h pp w0 in
  world r = world inner /\
  (events r = events inner \/
   exists err, outcome inner = Returns (Some err) /\
               events r = (events inner ++ [EvLogError err])%list).
Proof.
  cbv zeta. unfold fetchImage.
  set (m := if (length pp =? 0)%nat
            then SetImageAsync E url w h
            else SetImageScaled E url w h pp).
  destruct (outcome (m w0)) as [[err|]| |] eqn:Hm.
  - rewrite (bind_returns _ _ _ _ Hm). cbn [world events emit].
    split; [reflexivity|]. right. eauto.
  - rewrite (bind_returns _ _ _ _ Hm). cbn [world events ret].
    rewrite app_nil_r. auto.
  - rewrite (bind_blocks _ _ _ Hm). auto.
  - rewrite (bind_panics _ _ _ Hm). auto.
Qed.

Lemma fetchImage_counts E url w h pp w0 :
  let r := fetchImage E url w h pp w0 in
  tidy w0 r /\ single_attempt (events r).
Proof.
  cbv zeta.
  assert (Hin : let inner :=
                  (if (length pp =? 0)%nat
                   then SetImageAsync E url w h
                   else SetImageScaled E url w h pp) w0 in
                tidy w0 inner /\ single_attempt (events inner)).
  { cbv zeta. destruct (length pp =? 0)%nat.
    - destruct (SetImageAsync_counts E url w h w0) as (H1 & H2 & _). auto.
    - unfold SetImageScaled. rewrite SetImageScaledContext_eq.
      apply bind_from_counts. }
  cbv zeta in Hin. destruct Hin as ((Hh & Hb) & (Ha & Hg & Hw)).
  destruct (fetchImage_shape E url w h pp w0) as (Hwd & [He|(err & _ & He)]);
    unfold tidy, single_attempt; rewrite Hwd, He;
    rewrite ?count_app; cbn [count is_Acquire is_Release is_GET is_WriteFile];
    repeat split; lia.
Qed.

Lemma AsyncFetch_run E url w h pp w0 :
  AsyncFetch E url w h pp w0 =
  mkRun (outcome (fetchImage E url w h pp w0))
        (world (fetchImage E url w h pp w0))
        (EvPlaceholder :: events (fetchImage E url w h pp w0)).
Proof. reflexivity. Qed.

(** X9: no bind keeps a permit.  Whatever the environment answers, and
    however the call ends, [SetImageScaledContext], [GetPixbufScaled],
    [SetImageAsync], [fetchImage] and [AsyncFetch] release as many
    permits as they acquire and leave as many in use as they found. *)
Theorem binds_leave_throttler (E : Env) (ctx : Ctx E) (url : string)
        (w h : Z) (pp : list (Processor E)) (w0 : World) :
  tidy w0 (SetImageScaledContext E ctx url w h pp w0) /\
  tidy w0 (GetPixbufScaled E url w h pp w0) /\
  tidy w0 (SetImageAsync E url w h w0) /\
  tidy w0 (fetchImage E url w h pp w0) /\
  tidy w0 (AsyncFetch E url w h pp w0).
Proof.
  split; [rewrite SetImageScaledContext_eq; apply bind_from_counts|].
  split; [apply GetPixbufScaled_counts|].
  split; [apply SetImageAsync_counts|].
  split; [apply fetchImage_counts|].
  rewrite AsyncFetch_run.
  destruct (fetchImage_counts E url w h pp w0) as ((Hh & Hb) & _).
  split; [exact Hh|exact Hb].
Qed.

(** X10: no bind tries twice.  Every run of [SetImageScaledContext],
    [GetPixbufScaled], [SetImageAsync], [fetchImage] and [AsyncFetch]
    takes at most one permit, issues at most one GET and writes at most
    one file. *)
Theorem binds_attempt_once (E : Env) (ctx : Ctx E) (url : string)
        (w h : Z) (pp : list (Processor E)) (w0 : World) :
  single_attempt (events (SetImageScaledContext E ctx url w h pp w0)) /\
  single_attempt (events (GetPixbufScaled E url w h pp w0)) /\
  single_attempt (events (SetImageAsync E url w h w0)) /\
  single_attempt (events (fetchImage E url w h pp w0)) /\
  single_attempt (events (AsyncFetch E url w h pp w0)).
Proof.
  split; [rewrite SetImageScaledContext_eq; apply bind_from_counts|].
  split; [apply GetPixbufScaled_counts|].
  split; [apply SetImageAsync_counts|].
  split; [apply fetchImage_counts|].
  rewrite AsyncFetch_run.
  destruct (fetchImage_counts E url w h pp w0) as (_ & Ha & Hg & Hw).
  repeat split; assumption.
Qed.

(** ** Ways through a bind *)

(** [get] when [download] returns an error, in full. *)
Lemma get_failed_run E ctx url dst pp gif w0 e :
  outcome (download E ctx url pp gif w0) = Returns (Err e) ->
  get E ctx url dst pp gif w0 =
  mkRun (Returns (Some e)) (world (download E ctx url pp gif w0))
        (events (download E ctx url pp gif w0)).
Proof.
  intros Hd. unfold get. rewrite (bind_returns _ _ _ _ Hd).
  cbn [outcome world events ret]. rewrite app_nil_r. reflexivity.
Qed.

(** X11: a URL that does not parse is never fetched.  Its cache key lies
    directly under the cache root and no directory is made; a bind of it
    issues no GET, writes nothing and leaves the files as they are; and
    on a miss, with a permit, it returns the error of the request that
    could not be built. *)
Theorem unparsable_url_is_never_fetched (E : Env) (ctx : Ctx E)
        (url : string) (w h : Z) (pp : list (Processor E)) (w0 : World) :
  url_Parse E (fetched_url url) = None ->
  let url' := fetched_url url in
  let dst := CacheKey E url' in
  let r := SetImageScaledContext E ctx url w h pp w0 in
  dst = Join E (Path E) (SanitizeString E url') /\
  events (TransformURL E url' w0) = [] /\
  count is_GET (events r) = 0%nat /\
  count is_WriteFile (events r) = 0%nat /\
  files (world r) = files w0 /\
  (forall e0,
     outcome (setImageFromFile E dst false w h w0) = Returns (Some e0) ->
     sema_Acquire E ctx (held w0) = Acquired ->
     outcome r = Returns (Some (Wrap ErrParse "Failed to create a new re"))).
Proof.
  intros Hparse url' dst r. subst r dst.
  rewrite SetImageScaledContext_eq. fold url'.
  change (url_Parse E url' = None) in Hparse. clearbody url'.
  set (dst := CacheKey E url').
  assert (Hkey : dst = Join E (Path E) (SanitizeString E url')).
  { unfold dst, CacheKey, TransformURL. rewrite Hparse.
    cbn [outcome ret]. rewrite append_empty_r. reflexivity. }
  assert (HT : events (TransformURL E url' w0) = []).
  { rewrite TransformURL_run, Hparse. reflexivity. }
  assert (Hreq : NewRequestWithContext E url' = Some ErrParse).
  { unfold NewRequestWithContext. rewrite Hparse. reflexivity. }
  (* the fetch ends before the network *)
  assert (Hget : count is_GET (events (get E ctx url' dst pp false w0)) = 0%nat
                 /\ count is_WriteFile (events (get E ctx url' dst pp false w0))
                    = 0%nat
                 /\ files (world (get E ctx url' dst pp false w0)) = files w0
                 /\ outcome (get E ctx url' dst pp false w0) <> Returns None
                 /\ (sema_Acquire E ctx (held w0) = Acquired ->
                     outcome (get E ctx url' dst pp false w0) =
                     Returns (Some (Wrap ErrParse "Failed to create a new re")))).
  { destruct (sema_Acquire E ctx (held w0)) eqn:Hacq.
    - assert (Hd : download E ctx url' pp false w0 =
                   mkRun (Returns (Err (Wrap ErrParse "Failed to create a new re")))
                         {| files := files w0; held := held w0 + 1 - 1 |}
                         [EvAcquire; EvRelease]).
      { unfold download, bind at 1, Acquire. rewrite Hacq.
        cbn [outcome world events]. unfold defer at 1, Release.
        rewrite Hreq. reflexivity. }
      rewrite (get_failed_run E ctx url' dst pp false w0
                 (Wrap ErrParse "Failed to create a new re"))
        by (rewrite Hd; reflexivity).
      rewrite Hd. cbn. repeat split; (reflexivity || discriminate).
    - destruct (download_not_acquired E ctx url' pp false w0)
        as (He & Hw & [Ho|Ho]); [congruence| |].
      + unfold get. rewrite (bind_blocks _ _ _ Ho), He, Hw. cbn.
        repeat split; (reflexivity || discriminate).
      + rewrite (get_failed_run E ctx url' dst pp false w0 _ Ho), He, Hw.
        cbn. repeat split; (reflexivity || discriminate).
    - destruct (download_not_acquired E ctx url' pp false w0)
        as (He & Hw & [Ho|Ho]); [congruence| |].
      + unfold get. rewrite (bind_blocks _ _ _ Ho), He, Hw. cbn.
        repeat split; (reflexivity || discriminate).
      + rewrite (get_failed_run E ctx url' dst pp false w0 _ Ho), He, Hw.
        cbn. repeat split; (reflexivity || discriminate). }
  destruct Hget as (Hg & Hwr & Hf & Hne & Hout).
  split; [exact Hkey|]. split; [exact HT|]. subst dst.
  destruct (bind_from_shape E ctx url' false w h pp w0)
    as [(Hs1 & -> & -> & Ho)
       |(_ & [(_ & -> & -> & Ho)|(Hnone & _)])];
    [| |contradiction].
  - rewrite !count_app. drop_local.
    repeat split; try reflexivity.
    intros e0 He0. exfalso. apply (Hs1 e0), He0.
  - rewrite !count_app, Hg, Hwr. drop_local.
    repeat split; try reflexivity; try exact Hf.
    intros e0 _ Hacq. rewrite Ho. apply Hout, Hacq.
Qed.

Lemma unparsable_url_is_never_fetched_witness :
  let url := "not a url" in
  let r := SetImageScaledContext Demo.env false url 100 100 ["resize"]
                                 Demo.fresh in
  CacheKey Demo.env (fetched_url url) = "/tmp/gtkcord3-hackadoll3/not_a_url" /\
  events (TransformURL Demo.env (fetched_url url) Demo.fresh) = [] /\
  count is_GET (events r) = 0%nat /\
  count is_WriteFile (events r) = 0%nat /\
  files (world r) = files Demo.fresh /\
  outcome r = Returns (Some (Wrap ErrParse "Failed to create a new re")).
Proof.
  cbv zeta.
  destruct (unparsable_url_is_never_fetched Demo.env false "not a url"
              100 100 ["resize"] Demo.fresh eq_refl)
    as (Hk & HT & Hg & Hw & Hf & Ho).
  split; [exact Hk|]. split; [exact HT|]. split; [exact Hg|].
  split; [exact Hw|]. split; [exact Hf|].
  apply (Ho (Wrap ErrOpen "Failed to open file")); reflexivity.
Defined.

(** X12: a write that breaks leaves its debris.  On a miss, when the
    fetch succeeds and the write breaks after a part of the bytes,
    [SetImageScaledContext] returns the error of the write and removes
    nothing: the part written stays at the cache key. *)
Theorem broken_write_is_left_behind (E : Env) (ctx : Ctx E) (url : string)
        (w h : Z) (pp : list (Processor E)) (w0 : World)
        (e0 : error) (b partial : string) :
  let url' := fetched_url url in
  let dst := CacheKey E url' in
  outcome (setImageFromFile E dst false w h w0) = Returns (Some e0) ->
  outcome (download E ctx url' pp false w0) = Returns (Ok b) ->
  os_WriteFile E dst b = Flushed partial ->
  let r := SetImageScaledContext E ctx url w h pp w0 in
  outcome r =
    Returns (Some (Wrap ErrWrite ("Failed to write file to " ++ dst))) /\
  files (world r) = <[dst := partial]> (files w0) /\
  count is_Remove (events r) = 0%nat.
Proof.
  intros url' dst H1 Hd Hw r. subst r.
  rewrite SetImageScaledContext_eq. fold url'. clearbody url'.
  assert (Hg : get E ctx url' dst pp false w0 =
               mkRun (Returns (Some (Wrap ErrWrite
                                       ("Failed to write file to " ++ dst))))
                     {| files := <[dst := partial]>
                                   (files (world (download E ctx url' pp false w0)));
                        held := held (world (download E ctx url' pp false w0)) |}
                     (events (download E ctx url' pp false w0)
                      ++ [EvWriteFile dst b])%list).
  { unfold get. rewrite (bind_returns _ _ _ _ Hd).
    unfold bind, WriteFile. rewrite Hw. cbn [outcome world events ret].
    rewrite app_nil_r. reflexivity. }
  destruct (download_files E ctx url' pp false w0) as [Hf _].
  destruct (get_counts E ctx url' dst pp false w0) as (_ & _ & Hrm).
  subst dst.
  destruct (bind_from_shape E ctx url' false w h pp w0)
    as [(Hs1 & _)|(_ & [(_ & He & Hwd & Ho)|(Hnone & _)])].
  - exfalso. apply (Hs1 e0), H1.
  - rewrite Ho, Hwd, He, !count_app, Hrm. drop_local.
    rewrite Hg. cbn [outcome world files]. rewrite Hf. auto.
  - rewrite Hg in Hnone. discriminate.
Qed.

Lemma broken_write_is_left_behind_witness :
  let url := "http://img.example/a.png" in
  let dst := "/tmp/gtkcord3-hackadoll3/img.example/_a.png_" in
  let r := SetImageScaledContext Demo2.full_disk false url 100 100
                                 ["resize"] Demo.fresh in
  outcome r =
    Returns (Some (Wrap ErrWrite ("Failed to write file to " ++ dst))) /\
  files (world r) = <[dst := "im"]> (files Demo.fresh) /\
  count is_Remove (events r) = 0%nat.
Proof.
  apply (broken_write_is_left_behind Demo2.full_disk false
           "http://img.example/a.png" 100 100 ["resize"] Demo.fresh
           (Wrap ErrOpen "Failed to open file") "img:a" "im");
    reflexivity.
Defined.

(** X13: [GetPixbufScaled] never removes a file.  When the file it has
    fetched and written does not decode, it returns the error of the
    decoder and the bytes stay at the cache key. *)
Theorem GetPixbufScaled_keeps_undecodable (E : Env) (url : string)
        (w h : Z) (pp : list (Processor E)) (w0 : World) (e0 e1 : error) :
  let dst := CacheKey E url in
  let g := get E (Background E) url dst pp false w0 in
  outcome (getPixbufFromFile E dst w h w0) = Returns (Err e0) ->
  outcome g = Returns None ->
  outcome (getPixbufFromFile E dst w h (world g)) = Returns (Err e1) ->
  let r := GetPixbufScaled E url w h pp w0 in
  outcome r = Returns (Err e1) /\
  (exists b, outcome (download E (Background E) url pp false w0)
             = Returns (Ok b) /\
             files (world r) !! dst = Some b) /\
  count is_Remove (events r) = 0%nat.
Proof.
  intros dst g H1 H2 H3 r.
  destruct (GetPixbufScaled_counts E url w h pp w0) as (_ & _ & Hrm).
  split; [|split; [|exact Hrm]].
  - subst r. unfold GetPixbufScaled.
    rewrite (bind_returns _ _ _ _ (TransformURL_outcome E url w0)).
    rewrite TransformURL_world. fold dst.
    rewrite (bind_returns _ _ _ _ H1), getPixbufFromFile_world.
    fold g. rewrite (bind_returns _ _ _ _ H2).
    rewrite (bind_returns _ _ _ _ H3). reflexivity.
  - destruct (get_ok E (Background E) url dst pp false w0 H2)
      as (b & Hd & Hf & _).
    exists b. split; [exact Hd|].
    subst r. unfold GetPixbufScaled.
    rewrite (bind_returns _ _ _ _ (TransformURL_outcome E url w0)).
    rewrite TransformURL_world. fold dst.
    rewrite (bind_returns _ _ _ _ H1), getPixbufFromFile_world.
    fold g. rewrite (bind_returns _ _ _ _ H2).
    rewrite (bind_returns _ _ _ _ H3), getPixbufFromFile_world.
    cbn [world ret]. unfold g. rewrite Hf. apply lookup_insert_eq.
Qed.

Lemma GetPixbufScaled_keeps_undecodable_witness :
  let url := "http://img.example/page.png" in
  let r := GetPixbufScaled Demo.env url 100 100 [] Demo.fresh in
  outcome r =
    Returns (Err (Wrap ErrLoaderWrite "Failed to stream to pixbuf_loader")) /\
  (exists b, outcome (download Demo.env false url [] false Demo.fresh)
             = Returns (Ok b) /\
             files (world r) !! CacheKey Demo.env url = Some b) /\
  count is_Remove (events r) = 0%nat.
Proof.
  apply (GetPixbufScaled_keeps_undecodable Demo.env
           "http://img.example/page.png" 100 100 [] Demo.fresh
           (Wrap ErrOpen "Failed to open file")
           (Wrap ErrLoaderWrite "Failed to stream to pixbuf_loader"));
    vm_compute; reflexivity.
Defined.

(** X14: [GetPixbufScaled] and [GetPixbuf] fetch the URL as it is given,
    "gif" or not: every GET goes to it, the only file touched is its
    cache key, and the processors run on a still image. *)
Theorem GetPixbufScaled_request (E : Env) (url : string) (w h : Z)
        (pp : list (Processor E)) (w0 : World) :
  Forall (respects url (CacheKey E url) false)
         (events (GetPixbufScaled E url w h pp w0)) /\
  Forall (respects url (CacheKey E url) false)
         (events (GetPixbuf E url pp w0)).
Proof. split; apply GetPixbufScaled_respects. Qed.

(** X15: [SetImageAsync] is not cached.  It opens, writes and removes no
    file and leaves the files as they are; with a permit and a URL that
    parses it issues its GET whatever the cache holds.  [fetchImage]
    without processors does the same. *)
Theorem SetImageAsync_bypasses_cache (E : Env) (url : string) (w h : Z)
        (w0 : World) :
  let r := SetImageAsync E url w h w0 in
  let f := fetchImage E url w h [] w0 in
  (files (world r) = files w0 /\
   Forall (fun e => touched e = None) (events r)) /\
  (files (world f) = files w0 /\
   Forall (fun e => touched e = None) (events f)) /\
  (sema_Acquire E (Background E) (held w0) = Acquired ->
   NewRequestWithContext E url = None ->
   In (EvGET url) (events r) /\ In (EvGET url) (events f)).
Proof.
  cbv zeta.
  destruct (SetImageAsync_counts E url w h w0) as (_ & _ & Hf & Ht).
  destruct (fetchImage_shape E url w h [] w0) as (Hw & He).
  cbn [length Nat.eqb] in Hw, He.
  split; [auto|]. split.
  - rewrite Hw. split; [exact Hf|].
    destruct He as [-> | (err & _ & ->)]; [exact Ht|].
    apply Forall_app. split; [exact Ht|repeat constructor].
  - intros Hacq Hreq.
    destruct (SetImageAsync_between E url w h w0 Hacq)
      as (x & mid & Hrun & _ & _ & _ & _ & Hin).
    assert (Hr : In (EvGET url) (events (SetImageAsync E url w h w0))).
    { rewrite Hrun. cbn [events]. right. apply in_or_app. left.
      apply Hin, Hreq. }
    split; [exact Hr|].
    destruct He as [-> | (err & _ & ->)]; [exact Hr|].
    apply in_or_app. left. exact Hr.
Qed.

Lemma SetImageAsync_bypasses_cache_witness :
  let url := "http://img.example/a.png" in
  let cached := world (SetImageScaledContext Demo.env false url 100 100
                                             ["resize"] Demo.fresh) in
  is_Some (files cached !! CacheKey Demo.env url) /\
  In (EvGET url) (events (SetImageAsync Demo.env url 100 100 cached)) /\
  In (EvGET url) (events (fetchImage Demo.env url 100 100 [] cached)).
Proof.
  cbv zeta. split; [vm_compute; eauto|].
  apply (SetImageAsync_bypasses_cache Demo.env "http://img.example/a.png"
           100 100); vm_compute; reflexivity.
Defined.

(** X16: without processors the cache holds the body as it was sent.
    When the transport succeeds with a good status and a body that
    arrives whole, and the write succeeds, [get] returns no error and
    the file at [dst] holds exactly the bytes of the body. *)
Theorem get_stores_body (E : Env) (ctx : Ctx E) (url dst : string)
        (gif : bool) (w0 : World) (resp : Response) (d : string) :
  transport_succeeds E ctx url w0 resp ->
  200 <= StatusCode resp <= 299 ->
  Body resp = Complete d ->
  os_WriteFile E dst d = Written ->
  let g := get E ctx url dst [] gif w0 in
  outcome g = Returns None /\
  files (world g) = <[dst := d]> (files w0) /\
  files (world g) !! dst = Some d.
Proof.
  intros Ht Hs Hb Hw g.
  assert (Hd : outcome (download E ctx url [] gif w0) = Returns (Ok d)).
  { rewrite (download_outcome E ctx url [] gif w0 resp Ht).
    destruct (Z.ltb_spec (StatusCode resp) 200); [lia|].
    destruct (Z.gtb_spec (StatusCode resp) 299); [lia|].
    cbn [orb]. unfold body_result. cbn [length Nat.ltb Nat.leb].
    rewrite Hb. reflexivity. }
  destruct (download_files E ctx url [] gif w0) as [Hf _].
  assert (Hg : outcome g = Returns None /\
               files (world g) = <[dst := d]> (files w0)).
  { subst g. unfold get. rewrite (bind_returns _ _ _ _ Hd).
    unfold bind, WriteFile. rewrite Hw. cbn [outcome world files ret].
    rewrite Hf. auto. }
  destruct Hg as [Ho Hfg]. split; [exact Ho|]. split; [exact Hfg|].
  rewrite Hfg. apply lookup_insert_eq.
Qed.

Lemma get_stores_body_witness :
  let g := get Demo.env false "http://img.example/page.png" "/tmp/x" []
               false Demo.fresh in
  outcome g = Returns None /\
  files (world g) = <["/tmp/x" := "<html>"]> (files Demo.fresh) /\
  files (world g) !! "/tmp/x" = Some "<html>".
Proof.
  apply (get_stores_body Demo.env false "http://img.example/page.png"
           "/tmp/x" false Demo.fresh
           {| StatusCode := 200; Body := Complete "<html>" |} "<html>");
    try reflexivity; [repeat split|cbn; lia].
Defined.

(** X17: the handler of "size-prepared" on an image of positive native
    size never panics, asks for no size when no positive box is given or
    the image lies strictly inside the box, and never asks for the
    native size itself: what it asks for is what [MaxSize] returns. *)
Theorem negotiate_request (E : Env) (w h : Z) (b : string) (w0 : World)
        (imgW imgH : Z) :
  size_prepared E b = Some (imgW, imgH) -> 0 < imgW -> 0 < imgH ->
  exists req,
    negotiate E w h b w0 = mkRun (Returns req) w0 [] /\
    (~ (0 < w /\ 0 < h) -> req = None) /\
    (imgW < w /\ imgH < h -> req = None) /\
    (forall s, req = Some s ->
               s <> (imgW, imgH) /\ MaxSize imgW imgH w h = Some s).
Proof.
  intros Hsz HW HH. unfold negotiate.
  destruct (Z.gtb_spec w 0); destruct (Z.gtb_spec h 0); cbn [andb];
    try (exists None; split; [reflexivity|];
         repeat split; try discriminate; intros; (reflexivity || lia)).
  rewrite Hsz.
  destruct (MaxSize imgW imgH w h) as [[w' h']|] eqn:Hm.
  - destruct (Z.eqb_spec w' imgW) as [->|Hw'];
      [destruct (Z.eqb_spec h' imgH) as [->|Hh']|]; cbn [negb orb].
    + exists None. split; [reflexivity|]. repeat split; try discriminate;
        intros; reflexivity.
    + exists (Some (imgW, h')). split; [reflexivity|].
      split; [intros Hn; exfalso; apply Hn; lia|].
      split.
      * intros [H1 H2]. unfold MaxSize in Hm.
        destruct (Z.ltb_spec imgW w); [|lia].
        destruct (Z.ltb_spec imgH h); [|lia].
        cbn [andb] in Hm. congruence.
      * intros s [= <-]. split; [congruence|reflexivity].
    + exists (Some (w', h')). split; [reflexivity|].
      split; [intros Hn; exfalso; apply Hn; lia|].
      split.
      * intros [H1 H2]. unfold MaxSize in Hm.
        destruct (Z.ltb_spec imgW w); [|lia].
        destruct (Z.ltb_spec imgH h); [|lia].
        cbn [andb] in Hm. congruence.
      * intros s [= <-]. split; [congruence|reflexivity].
  - exfalso. unfold MaxSize, GoInt.div in Hm.
    destruct ((imgW <? w) && (imgH <? h)); [discriminate|].
    destruct (imgW >? imgH).
    + destruct (Z.eqb_spec imgW 0); [lia|discriminate].
    + destruct (Z.eqb_spec imgH 0); [lia|discriminate].
Qed.

Lemma negotiate_request_witness :
  exists req,
    negotiate Demo.env 100 100 "img:a" Demo.fresh =
    mkRun (Returns req) Demo.fresh [] /\
    (~ (0 < 100 /\ 0 < 100) -> req = None) /\
    (200 < 100 /\ 50 < 100 -> req = None) /\
    (forall s, req = Some s ->
               s <> (200, 50) /\ MaxSize 200 50 100 100 = Some s).
Proof.
  apply (negotiate_request Demo.env 100 100 "img:a" Demo.fresh 200 50);
    [reflexivity|lia|lia].
Defined.

(** ** The rewritten URL *)

Lemma Replace_absent (s old new : string) :
  Contains s old = false -> replace_from 0 s old new = s.
Proof.
  induction s as [|c s IH]; [reflexivity|].
  cbn [Contains replace_from]. intros H.
  apply orb_false_iff in H. destruct H as [Hp Hc].
  rewrite Hp, IH by exact Hc. reflexivity.
Qed.

Lemma HasPrefix_length (s old : string) :
  HasPrefix s old = true -> (String.length old <= String.length s)%nat.
Proof.
  revert s. induction old as [|p old IH]; intros s H; [cbn; lia|].
  destruct s as [|c s]; [discriminate|].
  cbn [HasPrefix] in H. apply andb_true_iff in H. destruct H as [_ H].
  specialize (IH s H). cbn [String.length]. lia.
Qed.

Lemma replace_from_length (old new : string) :
  String.length new = String.length old ->
  (1 <= String.length old)%nat ->
  forall (s : string) (k : nat),
    (k <= String.length s)%nat ->
    (String.length (replace_from k s old new) + k)%nat = String.length s.
Proof.
  intros Hlen Hpos. induction s as [|c s IH]; intros k Hk.
  { cbn in *. lia. }
  destruct k as [|k]; cbn [replace_from String.length] in *.
  - destruct (HasPrefix (String c s) old) eqn:Hp.
    + apply HasPrefix_length in Hp. cbn [String.length] in Hp.
      rewrite length_append, Hlen.
      specialize (IH (String.length old - 1)%nat ltac:(lia)). lia.
    + cbn [String.length]. specialize (IH 0%nat ltac:(lia)). lia.
  - specialize (IH k ltac:(lia)). lia.
Qed.

(** X18: the URL [SetImageScaledContext] goes on with is
    [strings.Replace(url, "gif", "png", -1)] whether the URL holds "gif"
    or not, and it is as long as the URL of the request. *)
Theorem fetched_url_is_Replace (url : string) :
  fetched_url url = Replace url "gif" "png" /\
  String.length (fetched_url url) = String.length url.
Proof.
  assert (H : fetched_url url = Replace url "gif" "png").
  { unfold fetched_url, Replace.
    destruct (Contains url "gif") eqn:Hc; [reflexivity|].
    symmetry. apply Replace_absent, Hc. }
  split; [exact H|]. rewrite H. unfold Replace.
  pose proof (replace_from_length "gif" "png" eq_refl
                ltac:(cbn; lia) url 0%nat ltac:(lia)) as Hl.
  lia.
Qed.

(** ** A permit that is not handed over *)

(** X19: on a miss, when the throttler refuses the permit because the
    context is done, [SetImageScaledContext] returns that error; when
    the throttler makes it wait for ever, it does not return.  Either
    way it has issued no GET, written nothing, and left the world as it
    was. *)
Theorem bind_without_permit (E : Env) (ctx : Ctx E) (url : string)
        (w h : Z) (pp : list (Processor E)) (w0 : World) (e0 : error) :
  outcome (setImageFromFile E (CacheKey E (fetched_url url)) false w h w0)
  = Returns (Some e0) ->
  let r := SetImageScaledContext E ctx url w h pp w0 in
  (sema_Acquire E ctx (held w0) = Refused ->
   outcome r =
     Returns (Some (Wrap ErrContext "Failed to acquire throttler")) /\
   world r = w0 /\ from_disk (events r)) /\
  (sema_Acquire E ctx (held w0) = Waits ->
   outcome r = Blocks /\ world r = w0 /\ from_disk (events r)).
Proof.
  intros H1 r. subst r. rewrite SetImageScaledContext_eq.
  generalize dependent (fetched_url url). intros url' H1.
  assert (Hfd : from_disk (events (TransformURL E url' w0) ++
                           events (setImageFromFile E (CacheKey E url')
                                     false w h w0) ++ [])%list).
  { apply from_disk_app; [apply TransformURL_from_disk|].
    apply from_disk_app; [apply setImageFromFile_from_disk|repeat split]. }
  split; intros Hacq.
  - assert (Hd : download E ctx url' pp false w0 =
                 mkRun (Returns (Err (Wrap ErrContext
                                        "Failed to acquire throttler")))
                       w0 []).
    { unfold download, bind, Acquire. rewrite Hacq. reflexivity. }
    assert (Hg : get E ctx url' (CacheKey E url') pp false w0 =
                 mkRun (Returns (Some (Wrap ErrContext
                                         "Failed to acquire throttler")))
                       w0 []).
    { rewrite (get_failed_run E ctx url' _ pp false w0
                 (Wrap ErrContext "Failed to acquire throttler"))
        by (rewrite Hd; reflexivity).
      rewrite Hd. reflexivity. }
    destruct (bind_from_shape E ctx url' false w h pp w0)
      as [(Hs1 & _)|(_ & [(_ & He & Hwd & Ho)|(Hnone & _)])].
    + exfalso. apply (Hs1 e0), H1.
    + rewrite Ho, Hwd, He, Hg. cbn [outcome world events]. auto.
    + rewrite Hg in Hnone. discriminate.
  - assert (Hd : download E ctx url' pp false w0 = mkRun Blocks w0 []).
    { unfold download, bind, Acquire. rewrite Hacq. reflexivity. }
    assert (Hg : get E ctx url' (CacheKey E url') pp false w0 =
                 mkRun Blocks w0 []).
    { unfold get. rewrite bind_blocks by (rewrite Hd; reflexivity).
      rewrite Hd. reflexivity. }
    destruct (bind_from_shape E ctx url' false w h pp w0)
      as [(Hs1 & _)|(_ & [(_ & He & Hwd & Ho)|(Hnone & _)])].
    + exfalso. apply (Hs1 e0), H1.
    + rewrite Ho, Hwd, He, Hg. cbn [outcome world events]. auto.
    + rewrite Hg in Hnone. discriminate.
Qed.

Lemma bind_without_permit_witness :
  let url := "http://img.example/a.png" in
  let refused := SetImageScaledContext Demo.env true url 100 100
                                       ["resize"] Demo2.busy in
  let waiting := SetImageScaledContext Demo.env false url 100 100
                                       ["resize"] Demo2.busy in
  (outcome refused =
     Returns (Some (Wrap ErrContext "Failed to acquire throttler")) /\
   world refused = Demo2.busy /\ from_disk (events refused)) /\
  (outcome waiting = Blocks /\ world waiting = Demo2.busy /\
   from_disk (events waiting)).
Proof.
  cbv zeta. split.
  - apply (bind_without_permit Demo.env true "http://img.example/a.png"
             100 100 ["resize"] Demo2.busy
             (Wrap ErrOpen "Failed to open file")); reflexivity.
  - apply (bind_without_permit Demo.env false "http://img.example/a.png"
             100 100 ["resize"] Demo2.busy
             (Wrap ErrOpen "Failed to open file")); reflexivity.
Defined.

(** ** A miss that succeeds *)

(** X20: on a miss, when the fetch and the write succeed and the file
    written decodes, [SetImageScaledContext] returns no error and the
    cache holds the downloaded bytes at the cache key, in place of
    whatever was there (a file that did not decode is overwritten); the
    other files are as before. *)
Theorem miss_fills_cache (E : Env) (ctx : Ctx E) (url : string)
        (w h : Z) (pp : list (Processor E)) (w0 : World) (e0 : error) :
  let url' := fetched_url url in
  let dst := CacheKey E url' in
  let g := get E ctx url' dst pp false w0 in
  outcome (setImageFromFile E dst false w h w0) = Returns (Some e0) ->
  outcome g = Returns None ->
  outcome (setImageFromFile E dst false w h (world g)) = Returns None ->
  let r := SetImageScaledContext E ctx url w h pp w0 in
  outcome r = Returns None /\
  exists b,
    outcome (download E ctx url' pp false w0) = Returns (Ok b) /\
    files (world r) = <[dst := b]> (files w0) /\
    count is_GET (events r) = 1%nat.
Proof.
  intros url' dst g H1 H2 H3 r. subst r.
  rewrite SetImageScaledContext_eq. fold url'.
  destruct (get_ok E ctx url' dst pp false w0 H2) as (b & Hd & Hf & Hev).
  assert (Hacq : sema_Acquire E ctx (held w0) = Acquired).
  { destruct (sema_Acquire E ctx (held w0)) eqn:Hs; [reflexivity| |];
      destruct (download_not_acquired E ctx url' pp false w0)
        as (_ & _ & [Ho|Ho]); congruence. }
  assert (Hreq : NewRequestWithContext E url' = None).
  { destruct (NewRequestWithContext E url') as [err|] eqn:Hr; [|reflexivity].
    exfalso. revert Hd. unfold download, bind at 1, Acquire. rewrite Hacq.
    cbn [outcome world events]. unfold defer at 1, Release. rewrite Hr.
    discriminate. }
  destruct (download_between E ctx url' pp false w0 Hacq)
    as (x & mid & Hrun & _ & _ & _ & _ & _ & Hget).
  specialize (Hget Hreq).
  subst dst g. clearbody url'.
  destruct (bind_from_shape E ctx url' false w h pp w0)
    as [(Hs1 & _)
       |(_ & [(Hn & _)
             |(_ & [(_ & He & Hwd & Ho)|(e1 & Hs2 & _)])])].
  - exfalso. apply (Hs1 e0), H1.
  - contradiction.
  - rewrite Ho, Hwd, He, H3. split; [reflexivity|].
    exists b. split; [exact Hd|]. split; [exact Hf|].
    rewrite !count_app. drop_local. rewrite Hev, Hrun.
    cbn [events]. rewrite !count_app. cbn [count is_GET].
    rewrite !count_app, Hget. reflexivity.
  - congruence.
Qed.

Lemma miss_fills_cache_witness :
  let url := "http://img.example/a.gif" in
  let r := SetImageScaledContext Demo.env false url 100 100 ["resize"]
                                 Demo.fresh in
  outcome r = Returns None /\
  exists b,
    outcome (download Demo.env false (fetched_url url) ["resize"] false
               Demo.fresh) = Returns (Ok b) /\
    files (world r) =
      <[CacheKey Demo.env (fetched_url url) := b]> (files Demo.fresh) /\
    count is_GET (events r) = 1%nat.
Proof.
  apply (miss_fills_cache Demo.env false "http://img.example/a.gif"
           100 100 ["resize"] Demo.fresh
           (Wrap ErrOpen "Failed to open file"));
    vm_compute; reflexivity.
Defined.
